(** * pyFF [samlmd]: aggregation, filtering, expiration and provenance

    A shallow embedding of the core of [src/pyff/samlmd.py] and the
    properties of its merge/aggregation engine, filter engine, expiration
    calculator, entity set and publication-info mutator. *)

From stdpp Require Import gmap strings list fin_maps.
From Stdlib Require Import ZArith Lia Ascii.

Open Scope string_scope.
Open Scope list_scope.
#[local] Set Warnings "-register-all".

(** ** XML element trees (lxml [etree._Element])

    An element is a tag, an attribute dictionary and the list of its child
    elements in document order.  Text and tails play no role in the
    functions below and are left out. *)

Inductive Element : Type :=
  Elem { tag : string; attrib : gmap string string; children : list Element }.

(** [e.get(key)]: the attribute value, [None] when absent. *)
Definition get (e : Element) (key : string) : option string := attrib e !! key.

(** [e.get(key, default)]. *)
Definition get_default (e : Element) (key : string) (default : string) : string :=
  match attrib e !! key with Some v => v | None => default end.

(** [e.append(x)]: [x] becomes the last child. *)
Definition append (e x : Element) : Element :=
  Elem (tag e) (attrib e) (children e ++ [x]).

(** [e.insert(0, x)]: [x] becomes the first child. *)
Definition insert0 (e x : Element) : Element :=
  Elem (tag e) (attrib e) (x :: children e).

(** [copy.deepcopy(e)]: an independent element with the same content.
    Elements are values here, so the copy is the element itself. *)
Definition deepcopy (e : Element) : Element := e.

(** [e.iter(tg)]: [e] itself and all its descendants carrying tag [tg], in
    document order (depth first, pre-order). *)
Fixpoint iter (tg : string) (e : Element) : list Element :=
  (if bool_decide (tag e = tg) then [e] else [])
  ++ flat_map (iter tg) (children e).

Definition iter_forest (tg : string) (cs : list Element) : list Element :=
  flat_map (iter tg) cs.

(** [e.find("./tg")]: the position of the first child with tag [tg]. *)
Definition find_child (tg : string) (e : Element) : option (nat * Element) :=
  list_find (λ c, tag c = tg) (children e).

(** [e.find(".//tg")]: the first proper descendant with tag [tg]. *)
Definition find_desc (tg : string) (e : Element) : option Element :=
  head (iter_forest tg (children e)).

(** ** Namespaces and tags

    Modelled from the spec: [constants.NS] is not part of this module.  The
    primary namespace of descriptors and role descriptors and the
    namespace of registration and publication provenance carry the names
    SAML gives them; a tag is written as lxml writes it, the namespace in
    braces before the local name. *)

Definition NS_md : string := "urn:oasis:names:tc:SAML:2.0:metadata".
Definition NS_mdrpi : string := "urn:oasis:names:tc:SAML:metadata:rpi".

Definition qname (ns local : string) : string := "{" +:+ ns +:+ "}" +:+ local.

Definition EntityDescriptor : string := Eval cbv in qname NS_md "EntityDescriptor".
Definition EntitiesDescriptor : string := Eval cbv in qname NS_md "EntitiesDescriptor".
Definition Extensions : string := Eval cbv in qname NS_md "Extensions".
Definition PublicationInfo : string := Eval cbv in qname NS_mdrpi "PublicationInfo".

(** ** Exceptions and fallible results

    [exn] stands for the subclasses of Python's [Exception]: those the
    module raises itself and, under [OtherException], those of its
    collaborators. *)

Inductive exn : Type :=
| MetadataException (msg : string)
| TypeError (msg : string)
| OtherException (name msg : string).

Inductive result (A : Type) : Type :=
| Ok (a : A)
| Raise (ex : exn).
Arguments Ok {A} a.
Arguments Raise {A} ex.

Definition bind {A B : Type} (r : result A) (k : A -> result B) : result B :=
  match r with
  | Ok a => k a
  | Raise ex => Raise ex
  end.

#[global] Instance result_ret : MRet result := λ A a, Ok a.
#[global] Instance result_bind : MBind result := λ A B k r, bind r k.

(** Modelled from the spec: [utils.root] is not part of this module.  It
    gives the root node of a parsed document; a document is represented
    here by its root element, on which [root] is the identity. *)
Definition root (t : Element) : Element := t.

(** ** Entity enumeration *)

(** [iter_entities(t)]: no entities for an absent document. *)
Definition iter_entities (t : option Element) : list Element :=
  match t with
  | None => []
  | Some t => iter EntityDescriptor t
  end.

(** [entities_list(t)]. *)
Definition entities_list (t : option Element) : list Element :=
  match t with
  | None => []
  | Some t' =>
      if bool_decide (tag (root t') = EntityDescriptor) then [root t']
      else iter_entities t
  end.

Definition is_entity (e : Element) : bool :=
  bool_decide (tag e = EntityDescriptor).

(** ** [EntitySet]: a dictionary from [entityID] to record

    The key is [value.get('entityID')], which is [None] for a record that
    has no such attribute. *)

Module EntitySet.

Record t : Type := Make { _e : gmap (option string) Element }.

Definition empty : t := Make ∅.

(** [add]: [self._e[value.get('entityID')] = value]. *)
Definition add (value : Element) (self : t) : t :=
  Make (<[get value "entityID" := value]> (_e self)).

(** [__init__]: add every element of [initial] in turn. *)
Definition init (initial : option (list Element)) : t :=
  match initial with
  | None => empty
  | Some l => foldl (λ s e, add e s) empty l
  end.

(** [discard]. *)
Definition discard (value : Element) (self : t) : t :=
  let entity_id := get value "entityID" in
  match _e self !! entity_id with
  | Some _ => Make (delete entity_id (_e self))
  | None => self
  end.

(** [__iter__]: the stored values. *)
Definition values (self : t) : list Element :=
  (map_to_list (_e self)).*2.

(** [__len__]. *)
Definition len (self : t) : nat := size (_e self).

(** [__contains__]. *)
Definition contains (item : Element) (self : t) : bool :=
  bool_decide (is_Some (_e self !! get item "entityID")).

(** The operations a client can apply to a set. *)
Inductive op : Type := Add (value : Element) | Discard (value : Element).

Definition apply (self : t) (o : op) : t :=
  match o with
  | Add v => add v self
  | Discard v => discard v self
  end.

(** Every stored record sits under its own identifier. *)
Definition keyed (self : t) : Prop :=
  ∀ k v, _e self !! k = Some v → get v "entityID" = k.

End EntitySet.

(** ** Merge/aggregation engine: [entitiesdescriptor] *)

(** A member of [entities] is an element ([hasattr(member, 'tag')]) or a
    name handed to [lookup_fn]. *)
Inductive EntityRef : Type :=
| Direct (e : Element)
| GroupName (name : string).

(** The variables the loop of [entitiesdescriptor] updates: the container
    [t], the dictionary [seen] and the counter [nent]. *)
Record agg : Type := Agg {
  agg_t : Element;
  agg_seen : gmap string bool;
  agg_nent : nat
}.

(** [_insert(ent)].  With [copy] off lxml's [append] takes [ent] out of
    the parent it had.  Elements are values here: the candidates are
    taken to be separate subtrees, none lying inside another, so that
    moving one leaves the others as they are. *)
Definition _insert (copy : bool) (ent : Element) (st : agg) : agg :=
  match get ent "entityID" with
  | Some entity_id =>
      match agg_seen st !! entity_id with
      | None =>
          let ent_insert := if copy then deepcopy ent else ent in
          Agg (append (agg_t st) ent_insert)
              (<[entity_id := true]> (agg_seen st))
              (agg_nent st)
      | Some _ => st
      end
  | None => st
  end.

(** One round of either loop: [_insert(x); nent += 1]. *)
Definition insert_and_count (copy : bool) (st : agg) (ent : Element) : agg :=
  let st' := _insert copy ent st in
  Agg (agg_t st') (agg_seen st') (S (agg_nent st')).

(** [for member in entities: ...].  Calling an absent [lookup_fn] is a
    [TypeError]. *)
Fixpoint merge_loop (copy : bool) (lookup_fn : option (string → list Element))
    (entities : list EntityRef) (st : agg) : result agg :=
  match entities with
  | [] => Ok st
  | Direct member :: rest =>
      merge_loop copy lookup_fn rest (insert_and_count copy st member)
  | GroupName member :: rest =>
      match lookup_fn with
      | None => Raise (TypeError "'NoneType' object is not callable")
      | Some f =>
          merge_loop copy lookup_fn rest
            (foldl (insert_and_count copy) st (f member))
      end
  end.

(** The attributes given to the new container. *)
Definition container_attrs (name : string) (cache_duration valid_until : option string)
    : gmap string string :=
  let attrs := {[ "Name" := name ]} in
  let attrs := match cache_duration with
               | Some cd => <["cacheDuration" := cd]> attrs
               | None => attrs
               end in
  match valid_until with
  | Some vu => <["validUntil" := vu]> attrs
  | None => attrs
  end.

(** The records the references stand for, in the order the loop meets
    them. *)
Fixpoint candidates (lookup_fn : option (string → list Element))
    (entities : list EntityRef) : result (list Element) :=
  match entities with
  | [] => Ok []
  | Direct member :: rest =>
      l ← candidates lookup_fn rest; Ok (member :: l)
  | GroupName member :: rest =>
      match lookup_fn with
      | None => Raise (TypeError "'NoneType' object is not callable")
      | Some f => l ← candidates lookup_fn rest; Ok (f member ++ l)
      end
  end.

(** What the spec asks of the members: every record that has an identifier
    is kept unless an earlier one has the same identifier. *)
Fixpoint first_occurrences (l : list Element) : list Element :=
  match l with
  | [] => []
  | x :: rest =>
      match get x "entityID" with
      | None => first_occurrences rest
      | Some _ =>
          x :: filter (λ y, get y "entityID" ≠ get x "entityID")
                 (first_occurrences rest)
      end
  end.

(** A record whose identifier is not a key of [seen]. *)
Definition unseen (seen : gmap string bool) (y : Element) : bool :=
  match get y "entityID" with
  | Some j => bool_decide (seen !! j = None)
  | None => true
  end.

(** The identifiers found in a list of records. *)
Definition identifiers (l : list Element) : list string :=
  omap (λ e, get e "entityID") l.

Section Aggregation.

(** [validate_document(t)] from [utils]: [false] stands for the
    [DocumentInvalid] it raises. *)
Variable validate_document : Element → bool.

Definition entitiesdescriptor (entities : list EntityRef) (name : string)
    (lookup_fn : option (string → list Element))
    (cache_duration valid_until : option string)
    (validate copy : bool) : result (option Element) :=
  let attrs := container_attrs name cache_duration valid_until in
  let t := Elem EntitiesDescriptor attrs [] in
  st ← merge_loop copy lookup_fn entities (Agg t ∅ 0);
  if bool_decide (agg_nent st = 0) then Ok None
  else if validate then
    if validate_document (agg_t st) then Ok (Some (agg_t st))
    else Raise (MetadataException ("XML schema validation failed: " +:+ name))
  else Ok (Some (agg_t st)).

End Aggregation.

(** ** Filter engine: [filter_invalids_from_document] *)

Definition has_entity_descendant (e : Element) : bool :=
  match iter_forest EntityDescriptor (children e) with
  | [] => false
  | _ :: _ => true
  end.

(** A record that fails validation: [not xsd.validate(e)] for an [e] of
    [iter_entities(t)]. *)
Definition failing_record (xsd_validate : Element → bool) (e : Element) : bool :=
  is_entity e && negb (xsd_validate e).

(** The loop over a list of sibling elements, [visit] being the loop from
    one element onwards: the siblings are taken in turn until the
    iteration has ended. *)
Definition visit_forest
    (visit : Element → gmap (option string) string
             → option Element * gmap (option string) string * bool)
    : list Element → gmap (option string) string
      → list Element * gmap (option string) string * bool :=
  fix visit_forest cs ve :=
    match cs with
    | [] => ([], ve, false)
    | c :: cs' =>
        let '(c', ve1, ended) := visit c ve in
        if ended then (option_list c' ++ cs', ve1, true)
        else
          let '(cs'', ve2, ended') := visit_forest cs' ve1 in
          (option_list c' ++ cs'', ve2, ended')
    end.

Section Filter.

(** [schema().validate(e)] and the diagnostic [xml_error(xsd.error_log,
    m=base_url)] it leaves behind, both from [utils]. *)
Variable xsd_validate : Element → bool.
Variable xml_error : Element → option string → string.
Variable base_url : option string.

(** The loop [for e in iter_entities(t)] from element [e] onwards, for an
    element that has a parent.  lxml's iterator has already fetched the
    element that follows [e] when the body runs on [e], so removing [e]
    has one of two effects.  If [e] has no record below it, the iterator
    goes on with what follows [e] in the document.  If it has, the
    iterator walks the records inside the removed subtree and ends where
    that subtree ends, the parent link of [e] being gone.

    The result is what remains of [e] in the document ([None] when
    removed), the error dictionary, and whether the iteration has
    ended. *)
Fixpoint visit (e : Element) (validation_errors : gmap (option string) string)
    : option Element * gmap (option string) string * bool :=
  if failing_record xsd_validate e then
    let error := xml_error e base_url in
    let entity_id := get e "entityID" in
    let ve1 := <[entity_id := error]> validation_errors in
    if has_entity_descendant e then
      let '(_, ve2, _) := visit_forest visit (children e) ve1 in
      (None, ve2, true)
    else (None, ve1, false)
  else
    let '(cs', ve', ended) :=
      visit_forest visit (children e) validation_errors in
    (Some (Elem (tag e) (attrib e) cs'), ve', ended).

(** [filter_invalids_from_document(t, base_url, validation_errors)] on
    the root element [t] of a document: the returned document and the
    error dictionary as the call leaves it.  A failing root has no
    parent: its error is recorded and [None] returned. *)
Definition filter_invalids_from_document (t : Element)
    (validation_errors : gmap (option string) string)
    : option Element * gmap (option string) string :=
  if failing_record xsd_validate t then
    let error := xml_error t base_url in
    let entity_id := get t "entityID" in
    (None, <[entity_id := error]> validation_errors)
  else
    let '(t', ve, _) := visit t validation_errors in (t', ve).

(** The records of a document that fail validation, in document order. *)
Definition failing (t : Element) : list Element :=
  filter (λ e, xsd_validate e = false) (iter EntityDescriptor t).

(** The document without its failing records. *)
Fixpoint prune (e : Element) : Element :=
  Elem (tag e) (attrib e)
    (omap (λ c, if failing_record xsd_validate c then None
                else Some (prune c))
       (children e)).

(** One entry per failing record, written in document order. *)
Definition record_failures (l : list Element)
    (ve : gmap (option string) string) : gmap (option string) string :=
  foldl (λ m e, <[get e "entityID" := xml_error e base_url]> m) ve l.

End Filter.

(** No record of the document lies inside another record. *)
Fixpoint flat_records (e : Element) : bool :=
  if is_entity e then negb (has_entity_descendant e)
  else forallb flat_records (children e).

(** ** Expiration calculator: [metadata_expiration] and [expiration] *)

(** A [datetime.datetime]: the calendar fields down to the second, counted
    as whole seconds, the [microsecond] field and the UTC offset of an
    aware value ([tzinfo], [None] for a naive one). *)
Record datetime : Type := Datetime {
  dt_seconds : Z;
  dt_microsecond : Z;
  dt_tzinfo : option Z
}.

(** A [datetime.timedelta], in microseconds. *)
Record timedelta : Type := Timedelta { td_microseconds : Z }.

Definition seconds (n : Z) : timedelta := Timedelta (n * 1000000).

(** [d.replace(microsecond=us)]. *)
Definition replace_microsecond (us : Z) (d : datetime) : datetime :=
  Datetime (dt_seconds d) us (dt_tzinfo d).

(** [d.replace(tzinfo=None)]: the offset is dropped, the fields stay. *)
Definition replace_tzinfo_none (d : datetime) : datetime :=
  Datetime (dt_seconds d) (dt_microsecond d) None.

(** [datetime.utcnow()]: a naive value read off the clock. *)
Definition utcnow (clock : Z * Z) : datetime :=
  Datetime (fst clock) (snd clock) None.

(** The fields of a value as one count of microseconds. *)
Definition dt_total (d : datetime) : Z :=
  dt_seconds d * 1000000 + dt_microsecond d.

(** [a - b]: Python refuses to subtract a naive from an aware value. *)
Definition datetime_sub (a b : datetime) : result timedelta :=
  match dt_tzinfo a, dt_tzinfo b with
  | None, None => Ok (Timedelta (dt_total a - dt_total b))
  | Some oa, Some ob =>
      Ok (Timedelta ((dt_total a - oa * 1000000) - (dt_total b - ob * 1000000)))
  | _, _ =>
      Raise (TypeError "can't subtract offset-naive and offset-aware datetimes")
  end.

(** The configuration object [constants.config]. *)
Record config : Type := Config {
  default_cache_duration : string;
  respect_cache_duration : bool
}.

Definition is_metadata_root (relt : Element) : bool :=
  bool_decide (tag relt = EntityDescriptor)
  || bool_decide (tag relt = EntitiesDescriptor).

Section Expiration.

(** [iso2datetime] and [duration2timedelta] from [utils]; the latter
    gives [None] for a text it cannot read. *)
Variable iso2datetime : string → result datetime.
Variable duration2timedelta : string → option timedelta.
Variable cfg : config.

(** The branch both functions share: [validUntil] is present. *)
Definition until (clock : Z * Z) (valid_until : string) : result (option timedelta) :=
  let now := utcnow clock in
  vu ← iso2datetime valid_until;
  let now := replace_microsecond 0 now in
  let vu := replace_tzinfo_none (replace_microsecond 0 vu) in
  d ← datetime_sub vu now;
  Ok (Some d).

Definition metadata_expiration (clock : Z * Z) (t : Element)
    : result (option timedelta) :=
  let relt := root t in
  if is_metadata_root relt then
    match get relt "validUntil" with
    | Some valid_until => until clock valid_until
    | None =>
        if respect_cache_duration cfg then
          let cache_duration :=
            get_default relt "cacheDuration" (default_cache_duration cfg) in
          let cache_duration :=
            if bool_decide (cache_duration = "")
            then default_cache_duration cfg else cache_duration in
          Ok (duration2timedelta cache_duration)
        else Ok None
    end
  else Ok None.

Definition expiration (clock : Z * Z) (t : Element)
    : result (option timedelta) :=
  let relt := root t in
  if is_metadata_root relt then
    match get relt "validUntil" with
    | Some valid_until => until clock valid_until
    | None =>
        if respect_cache_duration cfg then
          let cache_duration :=
            get_default relt "cacheDuration" (default_cache_duration cfg) in
          Ok (duration2timedelta cache_duration)
        else Ok None
    end
  else Ok None.

End Expiration.

(** *** Reading a duration literal *)

(** The value of a decimal digit. *)
Definition digit_of (c : ascii) : option Z :=
  let n := Z.of_N (N_of_ascii c) in
  if (48 <=? n)%Z && (n <=? 57)%Z then Some (n - 48)%Z else None.

(** The leading digits of [s] as a number, and the rest of [s]. *)
Fixpoint number (acc : Z) (s : string) : Z * string :=
  match s with
  | String c r =>
      match digit_of c with
      | Some d => number (10 * acc + d) r
      | None => (acc, s)
      end
  | EmptyString => (acc, s)
  end.

(** An optional field: digits followed by the designator [x] (either
    case), worth [unit] seconds each. *)
Definition field (x : ascii) (unit : Z) (s : string) : Z * string :=
  match s with
  | String c _ =>
      match digit_of c with
      | Some _ =>
          let '(n, r) := number 0 s in
          match r with
          | String d r' =>
              if bool_decide (d = x)
                 || bool_decide (N_of_ascii d = (N_of_ascii x + 32)%N)
              then ((n * unit)%Z, r') else (0%Z, s)
          | EmptyString => (0%Z, s)
          end
      | None => (0%Z, s)
      end
  | EmptyString => (0%Z, s)
  end.

(** Modelled from the spec: [utils.duration2timedelta] is not part of this
    module.  A cache duration is an XML duration literal such as [PT1H]
    for one hour: an optional sign, [P], optional years, months and days,
    and after [T] optional hours, minutes and seconds.  A text that does
    not start like one gives no duration. *)
Definition xml_duration (period : string) : option timedelta :=
  let '(sign, s) :=
    match period with
    | String "-" r => ((-1)%Z, r)
    | String "+" r => (1%Z, r)
    | _ => (1%Z, period)
    end in
  match s with
  | String "P" s =>
      let '(y, s) := field "Y" (365 * 86400) s in
      let '(mo, s) := field "M" (30 * 86400) s in
      let '(d, s) := field "D" 86400 s in
      let time :=
        match s with
        | String "T" s =>
            let '(h, s) := field "H" 3600 s in
            let '(mi, s) := field "M" 60 s in
            let '(sec, s) := field "S" 1 s in
            (h + mi + sec)%Z
        | _ => 0%Z
        end in
      Some (seconds (sign * (y + mo + d + time)))
  | _ => None
  end.

(** ** Provenance annotator: [entity_extensions] and [set_pubinfo] *)

(** [entity_extensions(e)]: the [Extensions] child and its position, after
    creating it in front when there is none, and [e] as this leaves it. *)
Definition entity_extensions (e : Element) : nat * Element * Element :=
  match find_child Extensions e with
  | Some (i, ext) => (i, ext, e)
  | None =>
      let ext := Elem Extensions ∅ [] in
      (0, ext, insert0 e ext)
  end.

(** [set_pubinfo(e, publisher, creation_instant)]; [now] is the text
    [datetime.utcnow().strftime(...)] would give.  The result is [e] as
    the call leaves it; a call that raises has not changed [e]. *)
Definition set_pubinfo (now : string) (e : Element)
    (publisher creation_instant : option string) : result Element :=
  if bool_decide (tag e ≠ EntitiesDescriptor) then
    Raise (MetadataException
             "I can only set RegistrationAuthority to EntitiesDescriptor elements")
  else
    match publisher with
    | None => Raise (MetadataException "At least publisher must be provided")
    | Some publisher =>
        let creation_instant :=
          match creation_instant with
          | None => now
          | Some ci => ci
          end in
        let '(i, ext, e) := entity_extensions e in
        match find_desc PublicationInfo ext with
        | Some _ =>
            Raise (MetadataException
                     "A PublicationInfo element is already present")
        | None =>
            let attrs := {[ "publisher" := publisher ]} in
            let attrs :=
              if bool_decide (creation_instant ≠ "")
              then <["creationInstant" := creation_instant]> attrs
              else attrs in
            let pi := Elem PublicationInfo attrs [] in
            Ok (Elem (tag e) (attrib e)
                  (alter (λ ext, append ext pi) i (children e)))
        end
    end.


(** ** Parser/validator pipeline: [parse_saml_metadata] *)

(** [for e in iter_entities(t): if e.get('ID') is not None: del
    e.attrib['ID']]. *)
Fixpoint strip_ids (e : Element) : Element :=
  Elem (tag e)
    (if is_entity e then delete "ID" (attrib e) else attrib e)
    (map strip_ids (children e)).

(** [str(x)] of an optional text. *)
Definition py_str (x : option string) : string := default "None" x.

Section Pipeline.

(** The collaborators from [utils].  [parse_xml], [xinclude] and
    [check_signature] may raise. *)
Variable parse_xml : string → option string → result Element.
Variable xinclude : Element → result Element.
Variable check_signature : Element → option string → result Element.
Variable validate_document : Element → bool.
Variable xsd_validate : Element → bool.
Variable xml_error : Element → option string → string.
Variable iso2datetime : string → result datetime.
Variable duration2timedelta : string → option timedelta.
Variable cfg : config.

(** [entitiesdescriptor([t], base_url, copy=False)].  lxml refuses [None]
    as the value of the [Name] attribute. *)
Definition wrap_single (base_url : option string) (t : Element)
    : result (option Element) :=
  match base_url with
  | None => Raise (TypeError "Argument must be bytes or unicode, got 'NoneType'")
  | Some name =>
      entitiesdescriptor validate_document [Direct t] name None None None true false
  end.

(** The suite of the [try] statement: what it leaves in [t] and
    [expire_time_offset], or the exception that ends it, and the error
    dictionary. *)
Definition try_suite (clock : Z * Z) (source : string)
    (key base_url : option string) (filter_invalid validate : bool)
    (validation_errors : gmap (option string) string)
    : result (option Element * option timedelta) * gmap (option string) string :=
  let head :=
    t ← parse_xml source base_url;
    t ← xinclude t;
    expire_time_offset ← metadata_expiration iso2datetime duration2timedelta cfg clock t;
    t ← check_signature t key;
    Ok (root (strip_ids t), expire_time_offset) in
  match head with
  | Raise ex => (Raise ex, validation_errors)
  | Ok (t, expire_time_offset) =>
      let '(validated, ve) :=
        if validate then
          if filter_invalid then
            let '(t', ve) :=
              filter_invalids_from_document xsd_validate xml_error base_url
                t validation_errors in
            (Ok t', ve)
          else if validate_document t then (Ok (Some t), validation_errors)
          else
            (Raise (MetadataException
                      ("schema validation failed: [" +:+ py_str base_url
                       +:+ "] '" +:+ source +:+ "': " +:+ xml_error t base_url)),
             validation_errors)
        else (Ok (Some t), validation_errors) in
      (t ← validated;
       t ← match t with
           | Some t' =>
               if bool_decide (tag t' = EntityDescriptor)
               then wrap_single base_url t' else Ok t
           | None => Ok None
           end;
       Ok (t, expire_time_offset),
       ve)
  end.

(** The [try] statement with its handler, then the final [return].  The
    statement between them only counts [iter_entities(t)] for the log. *)
Definition parse_saml_metadata (clock : Z * Z) (source : string)
    (key base_url : option string)
    (fail_on_error filter_invalid validate : bool)
    (validation_errors : option (gmap (option string) string))
    : result (option Element * option timedelta) * gmap (option string) string :=
  let validation_errors := default ∅ validation_errors in
  let '(r, ve) :=
    try_suite clock source key base_url filter_invalid validate validation_errors in
  match r with
  | Raise ex =>
      if fail_on_error then (Raise ex, ve) else (Ok (None, None), ve)
  | Ok (t, expire_time_offset) =>
      let _ := length (iter_entities t) in
      (Ok (t, expire_time_offset), ve)
  end.

End Pipeline.

(** ** Lookup of a record: [find_entity] *)

(** [find_entity(t, e_id, attr)]: the first record whose attribute [attr]
    equals [e_id]; an [e_id] of [None] equals the value of a missing
    attribute. *)
Definition find_entity (t : option Element) (e_id : option string)
    (attr : string) : option Element :=
  snd <$> list_find (λ e, get e attr = e_id) (iter_entities t).

(** ** Software fingerprinting: [guess_entity_software] *)

(** [needle in hay] on texts. *)
Fixpoint contains (needle hay : string) : bool :=
  String.prefix needle hay
  || match hay with
     | EmptyString => false
     | String _ rest => contains needle rest
     end.

(** [s.endswith(suffix)]. *)
Definition endswith (s suffix : string) : bool :=
  (String.length suffix <=? String.length s)%nat
  && bool_decide
       (String.substring (String.length s - String.length suffix)
          (String.length suffix) s = suffix).

Definition SingleSignOnService : string :=
  Eval cbv in qname NS_md "SingleSignOnService".
Definition AssertionConsumerService : string :=
  Eval cbv in qname NS_md "AssertionConsumerService".

(** [e.findall(".//tg")]: the proper descendants with tag [tg], in
    document order. *)
Definition findall (tg : string) (e : Element) : list Element :=
  iter_forest tg (children e).

(** The chain of tests made on one non-empty [Location]; [None] when none
    of them returns. *)
Definition software_of_location (location : string) : option string :=
  if contains "Shibboleth.sso" location
     || contains "profile/SAML2/POST/SSO" location
     || contains "profile/SAML2/Redirect/SSO" location
     || contains "profile/Shibboleth/SSO" location
  then Some "Shibboleth"
  else if endswith location "saml2/idp/SSOService.php"
          || contains "saml/sp/saml2-acs.php" location
  then Some "SimpleSAMLphp"
  else if endswith location "user/authenticate" then Some "KalturaSSP"
  else if endswith location "adfs/ls" || endswith location "adfs/ls/"
  then Some "ADFS"
  else if contains "/oala/" location || contains "login.openathens.net" location
  then Some "OpenAthens"
  else if contains "/idp/SSO.saml2" location
          || contains "/sp/ACS.saml2" location
          || contains "sso.connect.pingidentity.com" location
  then Some "PingFederate"
  else if contains "idp/saml2/sso" location then Some "Authentic2"
  else if contains "nidp/saml2/sso" location then Some "Novell Access Manager"
  else if contains "affwebservices/public/saml2sso" location
  then Some "CASiteMinder"
  else if contains "FIM/sps" location then Some "IBMTivoliFIM"
  else if contains "sso/post" location
          || contains "sso/redirect" location
          || contains "saml2/sp/acs" location
          || contains "saml2/ls" location
          || contains "saml2/acs" location
          || contains "acs/redirect" location
          || contains "acs/post" location
          || contains "saml2/sp/ls/" location
  then Some "PySAML"
  else if contains "engine.surfconext.nl" location then Some "SURFConext"
  else if contains "opensso" location then Some "OpenSSO"
  else if contains "my.salesforce.com" location then Some "Salesforce"
  else None.

(** The loop over the service elements: the first [Location] that a test
    recognises decides. *)
Fixpoint software_of_services (elts : list Element) : option string :=
  match elts with
  | [] => None
  | elt :: rest =>
      match get elt "Location" with
      | Some location =>
          if bool_decide (location ≠ "") then
            match software_of_location location with
            | Some software => Some software
            | None => software_of_services rest
            end
          else software_of_services rest
      | None => software_of_services rest
      end
  end.

(** [guess_entity_software(e)].  Without [entityID] the test
    ['/shibboleth' in entity_id] is a [TypeError]. *)
Definition guess_entity_software (e : Element) : result string :=
  match software_of_services
          (findall SingleSignOnService e ++ findall AssertionConsumerService e)
  with
  | Some software => Ok software
  | None =>
      match get e "entityID" with
      | None => Raise (TypeError "argument of type 'NoneType' is not iterable")
      | Some entity_id =>
          if contains "/shibboleth" entity_id then Ok "Shibboleth"
          else if endswith entity_id "/metadata.php" then Ok "SimpleSAMLphp"
          else if contains "/openathens" entity_id then Ok "OpenAthens"
          else Ok "other"
      end
  end.

(** ** Merge-strategy registry: [find_merge_strategy] *)

(** ['.' in s]. *)
Fixpoint has_dot (s : string) : bool :=
  match s with
  | EmptyString => false
  | String c rest => bool_decide (c = "."%char) || has_dot rest
  end.

(** [s.rpartition('.')] when [s] has a dot: the text before the last dot
    and the text after it; [None] when [s] has no dot (Python then gives
    two empty texts and [s]). *)
Fixpoint rpartition_dot (s : string) : option (string * string) :=
  match s with
  | EmptyString => None
  | String c rest =>
      match rpartition_dot rest with
      | Some (before, after) => Some (String c before, after)
      | None => if bool_decide (c = "."%char) then Some ("", rest) else None
      end
  end.

Section MergeStrategy.

(** Python's module system: [__import__(name, globals(), locals(),
    fromlist, -1)] and [getattr] on what it returns.  An attribute may be
    bound to [None]. *)
Variables pymodule strategy : Type.
Variable py_import : string → list string → result pymodule.
Variable getattr_module : pymodule → string → result pymodule.
Variable getattr_strategy : pymodule → string → result (option strategy).

Definition find_merge_strategy (strategy_name : string) : result strategy :=
  let strategy_name :=
    if negb (has_dot strategy_name)
    then "pyff.merge_strategies." +:+ strategy_name
    else strategy_name in
  let '(mn, fn) :=
    match rpartition_dot strategy_name with
    | Some (mn, fn) => (mn, fn)
    | None => ("", strategy_name)
    end in
  module ←
    (if has_dot mn then
       let '(pn, modn) :=
         match rpartition_dot mn with
         | Some (pn, modn) => (pn, modn)
         | None => ("", mn)
         end in
       package ← py_import pn [modn];
       getattr_module package modn
     else py_import mn []);
  strategy ← getattr_strategy module fn;
  match strategy with
  | None =>
      Raise (MetadataException
               ("Unable to find merge strategy " +:+ strategy_name))
  | Some strategy => Ok strategy
  end.

End MergeStrategy.

(** ** Sample records and collaborators *)

Definition IDPSSODescriptor : string := Eval cbv in qname NS_md "IDPSSODescriptor".
Definition SPSSODescriptor : string := Eval cbv in qname NS_md "SPSSODescriptor".

Definition idp_role : Element := Elem IDPSSODescriptor ∅ [].
Definition sp_role : Element := Elem SPSSODescriptor ∅ [].

(** A record with the given identifier and role descriptors. *)
Definition record (entity_id : string) (roles : list Element) : Element :=
  Elem EntityDescriptor {[ "entityID" := entity_id ]} roles.

(** A record without identifier. *)
Definition anonymous_record : Element := Elem EntityDescriptor ∅ [idp_role].

(** A container of the given members. *)
Definition container (name : string) (members : list Element) : Element :=
  Elem EntitiesDescriptor {[ "Name" := name ]} members.

(** A stand-in for the schema: a record needs a role descriptor and holds
    no record, a container needs a member. *)
Definition sample_schema (e : Element) : bool :=
  match children e with
  | [] => false
  | _ :: _ => negb (is_entity e && existsb is_entity (children e))
  end.

Definition sample_error (e : Element) (base_url : option string) : string :=
  "Element '" +:+ tag e +:+ "': Missing child element(s).".

(** Sample documents for the filter engine. *)
Definition sp_without_role : Element := record "https://sp.example.org" [].
Definition sp_without_role_again : Element :=
  Elem EntityDescriptor
    {[ "entityID" := "https://sp.example.org"; "Name" := "second" ]} [].
Definition idp_record : Element := record "https://idp.example.org" [idp_role].
Definition sp_record : Element := record "https://sp.example.net" [sp_role].

Definition federation : Element :=
  container "federation" [idp_record; sp_without_role; sp_record].

Definition federation_with_duplicate : Element :=
  container "federation" [sp_without_role; idp_record; sp_without_role_again].

(** Stand-ins for the collaborators of the expiration calculator: a clock
    reading of 2026-11-04 12:00:00.250000 UTC and a parser that knows one
    timestamp, one hour and a quarter of a second past the full hour. *)
Definition sample_clock : Z * Z := (1793793600, 250000)%Z.

Definition sample_iso2datetime (s : string) : result datetime :=
  if bool_decide (s = "2026-11-04T13:00:00.250000Z")
  then Ok (Datetime 1793797200 250000 (Some 0%Z))
  else Raise (OtherException "ParseError" s).

Definition sample_config : config := Config "PT1H" true.


Definition container_with_empty_cache_duration : Element :=
  Elem EntitiesDescriptor {[ "cacheDuration" := "" ]} [idp_record].



(** Stand-ins for the collaborators of the pipeline: a parser that knows
    one document, an include step that changes nothing, and a signature
    check that finds no signature. *)
Definition sample_parse_xml (source : string) (base_url : option string)
    : result Element :=
  if bool_decide (source = "<EntitiesDescriptor/>") then Ok federation
  else Raise (OtherException "XMLSyntaxError" "Document is empty").

Definition sample_xinclude (t : Element) : result Element := Ok t.

Definition sample_check_signature (t : Element) (key : option string)
    : result Element :=
  match key with
  | None => Ok t
  | Some _ =>
      Raise (MetadataException
               "XML metadata contains 0 signatures - exactly 1 is required")
  end.

(** Sample input of the aggregation engine: a group that repeats the
    identifier of a record given directly. *)
Definition idp_record_again : Element :=
  record "https://idp.example.org" [idp_role; sp_role].

Definition sample_lookup (name : string) : list Element :=
  if bool_decide (name = "sps") then [sp_record; idp_record_again] else [].

Definition sample_refs : list EntityRef :=
  [Direct idp_record; GroupName "sps"; Direct sp_record; Direct anonymous_record].

(** A document in which a record lies inside another record. *)
Definition nested_federation : Element :=
  container "federation"
    [Elem EntityDescriptor {[ "entityID" := "https://outer.example.org" ]}
       [idp_record];
     sp_without_role].

(** * Properties *)

(** Induction over element trees, with the hypothesis for every child. *)
Definition Element_ind' (P : Element → Prop)
    (IH : ∀ tg attrs cs, Forall P cs → P (Elem tg attrs cs)) : ∀ e, P e :=
  fix go (e : Element) : P e :=
    match e with
    | Elem tg attrs cs =>
        IH tg attrs cs
          ((fix go_forest (l : list Element) : Forall P l :=
              match l with
              | [] => List.Forall_nil P
              | c :: l' => List.Forall_cons P c l' (go c) (go_forest l')
              end) cs)
    end.

(** ** Entity enumeration *)

(** C10: for an absent document [entities_list] returns an empty list and
    [iter_entities] yields no entity; neither raises. *)
Theorem enumeration_total_on_absent :
  entities_list None = [] ∧ iter_entities None = [].
Proof. split; reflexivity. Qed.

(** ** Entity set *)

Lemma entityset_keyed_add v s :
  EntitySet.keyed s → EntitySet.keyed (EntitySet.add v s).
Proof.
  intros Hk k x. unfold EntitySet.add; simpl.
  rewrite lookup_insert. case_decide as Hd.
  - intros [= <-]. done.
  - apply Hk.
Qed.

Lemma entityset_keyed_discard v s :
  EntitySet.keyed s → EntitySet.keyed (EntitySet.discard v s).
Proof.
  intros Hk k x. unfold EntitySet.discard.
  destruct (EntitySet._e s !! get v "entityID") eqn:E; simpl; [|apply Hk].
  rewrite lookup_delete. case_decide; [done | apply Hk].
Qed.

Lemma entityset_keyed_reachable initial ops :
  EntitySet.keyed (foldl EntitySet.apply (EntitySet.init initial) ops).
Proof.
  assert (Hinit : EntitySet.keyed (EntitySet.init initial)).
  { destruct initial as [l|]; simpl; [|intros k v; simpl; by rewrite lookup_empty].
    assert (Hgen : ∀ s, EntitySet.keyed s →
              EntitySet.keyed (foldl (λ s e, EntitySet.add e s) s l)).
    { induction l as [|x l IH]; intros s Hs; simpl; [done|].
      apply IH. by apply entityset_keyed_add. }
    apply Hgen. intros k v; simpl. by rewrite lookup_empty. }
  revert Hinit. generalize (EntitySet.init initial).
  induction ops as [|o ops IH]; intros s Hs; simpl; [done|].
  apply IH. destruct o; simpl;
    [by apply entityset_keyed_add | by apply entityset_keyed_discard].
Qed.

Lemma entityset_ids_of_values s :
  EntitySet.keyed s →
  (λ e, get e "entityID") <$> EntitySet.values s = (map_to_list (EntitySet._e s)).*1.
Proof.
  intros Hk. unfold EntitySet.values.
  rewrite <- list_fmap_compose.
  apply list_fmap_ext. intros i [k v] Hin; simpl.
  apply Hk. apply elem_of_map_to_list. by eapply list_elem_of_lookup_2.
Qed.

(** C8, as the code has it: adding a record whose identifier is present
    stores the new record under that identifier in place of the earlier
    one, leaves every other entry and the size alone, and is a no-op
    exactly when the stored record is the added one; and a set built by
    [__init__], [add] and [discard] never holds two records with one
    identifier. *)
Theorem entityset_add_present_replaces :
  (∀ (s : EntitySet.t) (v : Element),
     EntitySet.contains v s = true →
     EntitySet._e (EntitySet.add v s) !! get v "entityID" = Some v
     ∧ (∀ k, k ≠ get v "entityID" →
             EntitySet._e (EntitySet.add v s) !! k = EntitySet._e s !! k)
     ∧ EntitySet.len (EntitySet.add v s) = EntitySet.len s
     ∧ (EntitySet.add v s = s ↔ EntitySet._e s !! get v "entityID" = Some v))
  ∧ (∀ initial ops,
       NoDup ((λ e, get e "entityID")
                <$> EntitySet.values (foldl EntitySet.apply (EntitySet.init initial) ops))).
Proof.
  split.
  - intros s v Hc. unfold EntitySet.contains in Hc.
    apply bool_decide_eq_true in Hc. destruct Hc as [old Hold].
    unfold EntitySet.add, EntitySet.len; simpl.
    repeat split.
    + apply lookup_insert_eq.
    + intros k Hk. by apply lookup_insert_ne.
    + rewrite map_size_insert_Some; [done | eauto].
    + intros Heq. apply (f_equal EntitySet._e) in Heq; simpl in Heq.
      rewrite <- Heq. apply lookup_insert_eq.
    + intros Hs. destruct s as [m]; simpl in *. f_equal. by apply insert_id.
  - intros initial ops.
    rewrite entityset_ids_of_values by apply entityset_keyed_reachable.
    apply NoDup_fst_map_to_list.
Qed.

(** C8, as stated, fails: adding a second record under a present
    identifier does change the set, the earlier record is gone. *)
Lemma entityset_add_present_not_noop :
  let earlier := record "https://idp.example.org" [idp_role] in
  let later := record "https://idp.example.org" [sp_role] in
  let s := EntitySet.add earlier EntitySet.empty in
  EntitySet.contains later s = true
  ∧ EntitySet.add later s ≠ s
  ∧ EntitySet.values (EntitySet.add later s) = [later]
  ∧ earlier ∉ EntitySet.values (EntitySet.add later s).
Proof.
  cbv zeta. split; [by vm_compute|].
  assert (Hv : EntitySet.values
                 (EntitySet.add (record "https://idp.example.org" [sp_role])
                    (EntitySet.add (record "https://idp.example.org" [idp_role])
                       EntitySet.empty))
               = [record "https://idp.example.org" [sp_role]]) by (by vm_compute).
  split; [|split; [exact Hv|]].
  - intros Heq. rewrite Heq in Hv. vm_compute in Hv. discriminate Hv.
  - rewrite Hv. intros Hin. apply list_elem_of_singleton in Hin.
    vm_compute in Hin. discriminate Hin.
Qed.

(** ** Merge/aggregation engine *)

Section AggregationProofs.

Implicit Types (l : list Element) (seen : gmap string bool) (st : agg).

Lemma first_occurrences_have_id l y :
  y ∈ first_occurrences l → is_Some (get y "entityID").
Proof.
  induction l as [|x l IH]; simpl; [by intros ?%elem_of_nil|].
  destruct (get x "entityID") eqn:E; [|done].
  intros [->|Hin]%elem_of_cons; [by rewrite E|].
  apply list_elem_of_filter in Hin. tauto.
Qed.

Lemma filter_iff_elem (P Q : Element → Prop)
    `{!∀ x, Decision (P x)} `{!∀ x, Decision (Q x)} l :
  (∀ x, x ∈ l → P x ↔ Q x) → filter P l = filter Q l.
Proof.
  induction l as [|x l IH]; intros Hall; [done|].
  rewrite !filter_cons.
  assert (Hx : P x ↔ Q x) by (apply Hall; left).
  rewrite IH by (intros z Hz; apply Hall; by right).
  destruct (decide (P x)), (decide (Q x)); tauto.
Qed.

Lemma filter_unseen_insert seen i l :
  (∀ y, y ∈ l → is_Some (get y "entityID")) →
  filter (λ y, unseen (<[i:=true]> seen) y = true) l
  = filter (λ y, unseen seen y = true)
      (filter (λ y, get y "entityID" ≠ Some i) l).
Proof.
  intros Hid. rewrite list_filter_filter.
  apply filter_iff_elem. intros y Hy.
  destruct (Hid y Hy) as [j Hj]. unfold unseen. rewrite Hj.
  rewrite !bool_decide_eq_true, lookup_insert.
  destruct (decide (i = j)) as [->|Hne]; [|split; [|tauto]].
  - split; [done | intros [_ H]; by destruct H].
  - intros H; split; [done | congruence].
Qed.

Lemma filter_unseen_present seen i l :
  is_Some (seen !! i) →
  filter (λ y, unseen seen y = true)
    (filter (λ y, get y "entityID" ≠ Some i) l)
  = filter (λ y, unseen seen y = true) l.
Proof.
  intros [b Hb]. rewrite list_filter_filter.
  apply list_filter_iff. intros y. split; [tauto|].
  intros Hu. split; [done|]. intros Hy.
  unfold unseen in Hu. rewrite Hy in Hu.
  apply bool_decide_eq_true in Hu. congruence.
Qed.

Lemma filter_unseen_empty l :
  filter (λ y, unseen ∅ y = true) l = l.
Proof.
  induction l as [|y l IH]; [done|].
  rewrite filter_cons, decide_True, IH; [done|].
  unfold unseen. destruct (get y "entityID"); [|done].
  apply bool_decide_eq_true. apply lookup_empty.
Qed.

(** The loop invariant: the container grows by the first occurrences
    that [seen] does not know yet, and [nent] by one per round. *)
Lemma foldl_insert_and_count copy l st :
  let st' := foldl (insert_and_count copy) st l in
  children (agg_t st')
  = children (agg_t st)
    ++ filter (λ y, unseen (agg_seen st) y = true) (first_occurrences l)
  ∧ tag (agg_t st') = tag (agg_t st)
  ∧ attrib (agg_t st') = attrib (agg_t st)
  ∧ agg_nent st' = agg_nent st + length l.
Proof.
  revert st. induction l as [|x l IH]; intros st; simpl.
  { rewrite app_nil_r. repeat split; lia. }
  destruct (IH (insert_and_count copy st x)) as (Hc & Ht & Ha & Hn).
  rewrite Hc, Ht, Ha, Hn. clear IH Hc Ht Ha Hn.
  unfold insert_and_count, _insert; simpl.
  destruct (get x "entityID") as [i|] eqn:Ei; simpl.
  - destruct (agg_seen st !! i) as [b|] eqn:Es; simpl.
    + repeat split; [|lia].
      rewrite filter_cons, decide_False.
      * by rewrite filter_unseen_present by eauto.
      * unfold unseen. rewrite Ei.
        rewrite bool_decide_eq_true. congruence.
    + repeat split; [|lia].
      rewrite filter_cons, decide_True
        by (unfold unseen; rewrite Ei; by apply bool_decide_eq_true).
      unfold deepcopy.
      rewrite <- filter_unseen_insert
        by (intros y; apply first_occurrences_have_id).
      destruct copy; by rewrite <- app_assoc.
  - repeat split; lia.
Qed.

Lemma merge_loop_candidates copy lookup_fn entities st :
  merge_loop copy lookup_fn entities st
  = (l ← candidates lookup_fn entities;
     Ok (foldl (insert_and_count copy) st l)).
Proof.
  revert st. induction entities as [|[member|member] rest IH]; intros st;
    simpl; [done| |].
  - rewrite IH. by destruct (candidates lookup_fn rest).
  - destruct lookup_fn as [f|]; [|done].
    rewrite IH. destruct (candidates (Some f) rest); simpl; [|done].
    by rewrite foldl_app.
Qed.

End AggregationProofs.

Section FirstOccurrences.

Implicit Types (l : list Element).

Lemma first_occurrences_sublist l : first_occurrences l `sublist_of` l.
Proof.
  induction l as [|x l IH]; simpl; [done|].
  destruct (get x "entityID"); [|by apply sublist_cons].
  apply sublist_skip. etrans; [apply sublist_filter | exact IH].
Qed.

Lemma identifiers_filter_NoDup (P : Element → Prop) `{!∀ x, Decision (P x)} l :
  NoDup (identifiers l) → NoDup (identifiers (filter P l)).
Proof.
  unfold identifiers. induction l as [|x l IH]; simpl; [done|].
  rewrite filter_cons.
  destruct (get x "entityID") as [i|] eqn:E; simpl.
  - intros [Hni Hnd]%NoDup_cons.
    destruct (decide (P x)); simpl; [|by apply IH].
    rewrite E. apply NoDup_cons. split; [|by apply IH].
    rewrite list_elem_of_omap. intros (y & Hy & Hyi).
    apply Hni. rewrite list_elem_of_omap. exists y.
    apply list_elem_of_filter in Hy. tauto.
  - intros Hnd. destruct (decide (P x)); simpl; [rewrite E|]; by apply IH.
Qed.

Lemma first_occurrences_NoDup l : NoDup (identifiers (first_occurrences l)).
Proof.
  induction l as [|x l IH]; simpl; [constructor|].
  destruct (get x "entityID") as [i|] eqn:E; [|done].
  unfold identifiers; simpl. rewrite E. apply NoDup_cons. split.
  - rewrite list_elem_of_omap. intros (y & Hy & Hyi).
    apply list_elem_of_filter in Hy. tauto.
  - by apply identifiers_filter_NoDup.
Qed.

(** A member is the first candidate that carries its identifier. *)
Lemma first_occurrences_first l m :
  m ∈ first_occurrences l →
  ∃ i k, get m "entityID" = Some i
         ∧ list_find (λ c, get c "entityID" = Some i) l = Some (k, m).
Proof.
  induction l as [|x l IH]; simpl; [by intros ?%elem_of_nil|].
  destruct (get x "entityID") as [j|] eqn:E.
  - intros [->|Hin]%elem_of_cons.
    + exists j, 0. split; [done|]. by rewrite decide_True.
    + apply list_elem_of_filter in Hin. destruct Hin as [Hne Hin].
      destruct (IH Hin) as (i & k & Hi & Hf).
      exists i, (S k). split; [done|].
      rewrite decide_False by congruence. by rewrite Hf.
  - intros Hin. destruct (IH Hin) as (i & k & Hi & Hf).
    exists i, (S k). split; [done|].
    rewrite decide_False by congruence. by rewrite Hf.
Qed.

(** Every identifier among the candidates has its member. *)
Lemma first_occurrences_covers l i :
  i ∈ identifiers l →
  ∃ m, m ∈ first_occurrences l ∧ get m "entityID" = Some i.
Proof.
  unfold identifiers. rewrite list_elem_of_omap. intros (c & Hc & Hci).
  induction l as [|x l IH]; [by apply elem_of_nil in Hc|]. simpl.
  destruct (get x "entityID") as [j|] eqn:E.
  - destruct (decide (j = i)) as [->|Hne].
    + exists x. split; [left | done].
    + apply elem_of_cons in Hc. destruct Hc as [->|Hc]; [congruence|].
      destruct (IH Hc) as (m & Hm & Hmi). exists m. split; [|done].
      right. apply list_elem_of_filter. split; [congruence | done].
  - apply elem_of_cons in Hc. destruct Hc as [->|Hc]; [congruence|].
    by apply IH.
Qed.

(** As many members as there are distinct identifiers. *)
Lemma first_occurrences_length l :
  length (first_occurrences l)
  = size (list_to_set (identifiers l) : gset string).
Proof.
  assert (Hset : (list_to_set (identifiers l) : gset string)
                 = list_to_set (identifiers (first_occurrences l))).
  { apply set_eq. intros i. rewrite !elem_of_list_to_set. split.
    - intros Hi. destruct (first_occurrences_covers l i Hi) as (m & Hm & Hmi).
      unfold identifiers. rewrite list_elem_of_omap. eauto.
    - unfold identifiers. rewrite !list_elem_of_omap.
      intros (m & Hm & Hmi). exists m. split; [|done].
      eapply elem_of_sublist; [done | apply first_occurrences_sublist]. }
  rewrite Hset, size_list_to_set by apply first_occurrences_NoDup.
  clear Hset. unfold identifiers.
  assert (Hid : ∀ y, y ∈ first_occurrences l → is_Some (get y "entityID"))
    by apply first_occurrences_have_id.
  induction (first_occurrences l) as [|y r IH]; simpl; [done|].
  assert (Hy : is_Some (get y "entityID")) by (apply Hid; left).
  destruct Hy as [i Hi]. rewrite Hi. simpl. f_equal.
  apply IH. intros z Hz. apply Hid. by right.
Qed.

End FirstOccurrences.

Section EntitiesDescriptor.

Variable validate_document : Element → bool.

(** [entitiesdescriptor] in closed form. *)
Lemma entitiesdescriptor_unfold entities name lookup_fn cache_duration
    valid_until validate copy :
  entitiesdescriptor validate_document entities name lookup_fn
    cache_duration valid_until validate copy
  = (cands ← candidates lookup_fn entities;
     let t := Elem EntitiesDescriptor
                (container_attrs name cache_duration valid_until)
                (first_occurrences cands) in
     if bool_decide (length cands = 0) then Ok None
     else if validate then
       if validate_document t then Ok (Some t)
       else Raise (MetadataException
                     ("XML schema validation failed: " +:+ name))
     else Ok (Some t)).
Proof.
  unfold entitiesdescriptor. rewrite merge_loop_candidates.
  destruct (candidates lookup_fn entities) as [cands|ex]; [|done].
  cbn [mbind result_bind bind].
  match goal with
  | |- context [foldl (insert_and_count copy) ?s cands] =>
      destruct (foldl_insert_and_count copy cands s) as (Hc & Ht & Ha & Hn);
      destruct (foldl (insert_and_count copy) s cands) as [t' seen' nent']
  end.
  simpl in *. rewrite filter_unseen_empty in Hc.
  destruct t' as [tg attrs cs]; simpl in *. by subst.
Qed.

(** C1: the container [entitiesdescriptor] returns holds the first
    occurrences of the candidate records, in the order of the input: one
    member per distinct identifier, each member the first candidate with
    its identifier, whichever reference it came from. *)
Theorem entitiesdescriptor_first_seen_wins entities name lookup_fn
    cache_duration valid_until validate copy t :
  entitiesdescriptor validate_document entities name lookup_fn
    cache_duration valid_until validate copy = Ok (Some t) →
  ∃ cands,
    candidates lookup_fn entities = Ok cands
    ∧ children t = first_occurrences cands
    ∧ children t `sublist_of` cands
    ∧ NoDup (identifiers (children t))
    ∧ length (children t) = size (list_to_set (identifiers cands) : gset string)
    ∧ (∀ m, m ∈ children t →
         ∃ i k, get m "entityID" = Some i
                ∧ list_find (λ c, get c "entityID" = Some i) cands = Some (k, m))
    ∧ (∀ i, i ∈ identifiers cands →
         ∃ m, m ∈ children t ∧ get m "entityID" = Some i).
Proof.
  rewrite entitiesdescriptor_unfold.
  destruct (candidates lookup_fn entities) as [cands|ex]; [|done].
  cbn [mbind result_bind bind]. cbv zeta. intros H.
  assert (Ht : children t = first_occurrences cands).
  { case_bool_decide; [done|].
    destruct validate; [destruct (validate_document _)|];
      by inversion H. }
  exists cands. rewrite Ht. split; [done|]. split; [done|].
  split; [apply first_occurrences_sublist|].
  split; [apply first_occurrences_NoDup|].
  split; [apply first_occurrences_length|].
  split; [apply first_occurrences_first | apply first_occurrences_covers].
Qed.

(** When the references resolve to at least one record and validation
    is off or passes, a container is returned. *)
Lemma entitiesdescriptor_returns entities name lookup_fn cache_duration
    valid_until validate copy cands :
  candidates lookup_fn entities = Ok cands →
  cands ≠ [] →
  let t := Elem EntitiesDescriptor
             (container_attrs name cache_duration valid_until)
             (first_occurrences cands) in
  validate = false ∨ validate_document t = true →
  entitiesdescriptor validate_document entities name lookup_fn
    cache_duration valid_until validate copy = Ok (Some t).
Proof.
  intros Hc Hne t Hv. rewrite entitiesdescriptor_unfold, Hc.
  cbn [mbind result_bind bind]. cbv zeta.
  rewrite bool_decide_eq_false_2 by (by destruct cands).
  fold t. destruct Hv as [->| ->]; [done | by destruct validate].
Qed.

(** C2, as the code has it: [None] is returned exactly when the
    references resolve to no record at all, an empty input being one
    such case; a container that is returned has no member exactly when
    no candidate record carries an identifier. *)
Theorem entitiesdescriptor_absent_iff_no_candidate entities name lookup_fn
    cache_duration valid_until validate copy :
  (entitiesdescriptor validate_document entities name lookup_fn
     cache_duration valid_until validate copy = Ok None
   ↔ candidates lookup_fn entities = Ok [])
  ∧ entitiesdescriptor validate_document [] name lookup_fn
      cache_duration valid_until validate copy = Ok None
  ∧ (∀ t,
       entitiesdescriptor validate_document entities name lookup_fn
         cache_duration valid_until validate copy = Ok (Some t) →
       ∃ cands,
         candidates lookup_fn entities = Ok cands
         ∧ cands ≠ []
         ∧ (children t = [] ↔ identifiers cands = [])).
Proof.
  rewrite !entitiesdescriptor_unfold. split; [|split; [done|]].
  - destruct (candidates lookup_fn entities) as [cands|ex];
      cbn [mbind result_bind bind]; cbv zeta; [|done].
    destruct cands as [|c cands]; [done|].
    rewrite bool_decide_eq_false_2 by done.
    split; [|done].
    destruct validate; [destruct (validate_document _)|]; done.
  - intros t.
    destruct (candidates lookup_fn entities) as [cands|ex];
      cbn [mbind result_bind bind]; cbv zeta; [|done].
    intros H. exists cands. split; [done|].
    destruct cands as [|c cands]; [done|]. split; [done|].
    rewrite bool_decide_eq_false_2 in H by done.
    assert (Ht : children t = first_occurrences (c :: cands)).
    { destruct validate; [destruct (validate_document _)|];
        by inversion H. }
    rewrite Ht. split.
    + intros Hfo.
      destruct (identifiers (c :: cands)) as [|i ids] eqn:Hids; [done|].
      destruct (first_occurrences_covers (c :: cands) i) as (m & Hm & _).
      * rewrite Hids. left.
      * rewrite Hfo in Hm. by apply elem_of_nil in Hm.
    + intros Hids.
      destruct (first_occurrences (c :: cands)) as [|m ms] eqn:Hfo; [done|].
      destruct (first_occurrences_first (c :: cands) m) as (i & k & Hi & Hf).
      * rewrite Hfo. left.
      * apply list_find_Some in Hf. destruct Hf as (Hl & _ & _).
        assert (Hin : i ∈ identifiers (c :: cands)).
        { unfold identifiers. rewrite list_elem_of_omap. exists m.
          split; [by eapply list_elem_of_lookup_2 | done]. }
        rewrite Hids in Hin. by apply elem_of_nil in Hin.
Qed.

End EntitiesDescriptor.

(** C2, as stated, fails: a record without identifier is counted but not
    taken, so a container without members is returned. *)
Lemma entitiesdescriptor_present_but_empty :
  entitiesdescriptor sample_schema [Direct anonymous_record] "agg"
    None None None false true
  = Ok (Some (container "agg" []))
  ∧ children (container "agg" []) = [].
Proof. split; reflexivity. Qed.

(** ** Filter engine *)

Section FilterProofs.

Variable xsd_validate : Element → bool.
Variable xml_error : Element → option string → string.
Variable base_url : option string.

#[local] Abbreviation walk := (visit xsd_validate xml_error base_url).
#[local] Abbreviation pruned := (prune xsd_validate).
#[local] Abbreviation failures := (failing xsd_validate).
#[local] Abbreviation recorded := (record_failures xml_error base_url).
#[local] Abbreviation errors := (gmap (option string) string).

Lemma visit_eq (e : Element) (ve : errors) :
  walk e ve
  = if failing_record xsd_validate e then
      let ve1 := <[get e "entityID" := xml_error e base_url]> ve in
      if has_entity_descendant e then
        let '(_, ve2, _) := visit_forest walk (children e) ve1 in
        (None, ve2, true)
      else (None, ve1, false)
    else
      let '(cs', ve', ended) := visit_forest walk (children e) ve in
      (Some (Elem (tag e) (attrib e) cs'), ve', ended).
Proof. by destruct e. Qed.

Lemma prune_eq e :
  pruned e
  = Elem (tag e) (attrib e)
      (omap (λ c, if failing_record xsd_validate c then None
                  else Some (pruned c)) (children e)).
Proof. by destruct e. Qed.

Lemma iter_eq tg e :
  iter tg e
  = (if bool_decide (tag e = tg) then [e] else [])
    ++ iter_forest tg (children e).
Proof. by destruct e. Qed.

Lemma iter_nil_inv tg e :
  iter tg e = [] →
  bool_decide (tag e = tg) = false
  ∧ Forall (λ c, iter tg c = []) (children e).
Proof.
  rewrite iter_eq. intros [H1 H2]%app_eq_nil. split.
  - by destruct (bool_decide (tag e = tg)).
  - unfold iter_forest in H2. clear H1.
    induction (children e) as [|c cs IH]; [constructor|].
    simpl in H2. apply app_eq_nil in H2. destruct H2.
    constructor; [done | by apply IH].
Qed.

Lemma record_failures_app (l1 l2 : list Element) (ve : errors) :
  recorded (l1 ++ l2) ve = recorded l2 (recorded l1 ve).
Proof. apply foldl_app. Qed.

(** A subtree without records is walked through and left as it is. *)
Lemma visit_entity_free (e : Element) :
  iter EntityDescriptor e = [] → ∀ ve : errors, walk e ve = (Some e, ve, false).
Proof.
  induction e as [tg attrs cs IH] using Element_ind'.
  intros [Htag Hcs]%iter_nil_inv ve. simpl in Htag, Hcs.
  rewrite visit_eq. unfold failing_record, is_entity; simpl. rewrite Htag; simpl.
  assert (Hf : visit_forest walk cs ve = (cs, ve, false)).
  { clear Htag. revert ve. induction cs as [|c cs IHcs]; intros ve; [done|].
    apply Forall_cons in IH. destruct IH as [IHc IH].
    apply Forall_cons in Hcs. destruct Hcs as [Hc Hcs].
    simpl. rewrite (IHc Hc ve). by rewrite (IHcs IH Hcs ve). }
  by rewrite Hf.
Qed.

Lemma prune_entity_free e : iter EntityDescriptor e = [] → pruned e = e.
Proof.
  induction e as [tg attrs cs IH] using Element_ind'.
  intros [Htag Hcs]%iter_nil_inv. simpl in Htag, Hcs.
  rewrite prune_eq; simpl. f_equal.
  induction cs as [|c cs IHcs]; [done|].
  apply Forall_cons in IH. destruct IH as [IHc IH].
  apply Forall_cons in Hcs. destruct Hcs as [Hc Hcs].
  cbn [omap list_omap].
  assert (Hnf : failing_record xsd_validate c = false).
  { apply iter_nil_inv in Hc. unfold failing_record, is_entity.
    destruct Hc as [-> _]. done. }
  rewrite Hnf, (IHc Hc). f_equal. by apply IHcs.
Qed.

Lemma has_entity_descendant_false e :
  has_entity_descendant e = false →
  iter_forest EntityDescriptor (children e) = []
  ∧ Forall (λ c, iter EntityDescriptor c = []) (children e).
Proof.
  unfold has_entity_descendant.
  destruct (iter_forest EntityDescriptor (children e)) eqn:E; [|done].
  intros _. split; [done|]. unfold iter_forest in E.
  induction (children e) as [|c cs IH]; [constructor|].
  simpl in E. apply app_eq_nil in E. destruct E.
  constructor; [done | by apply IH].
Qed.

Lemma visit_forest_entity_free (cs : list Element) (ve : errors) :
  Forall (λ c, iter EntityDescriptor c = []) cs →
  visit_forest walk cs ve = (cs, ve, false).
Proof.
  induction 1 as [|c cs Hc Hcs IH]; [done|].
  simpl. rewrite (visit_entity_free c Hc ve). by rewrite IH.
Qed.

Lemma omap_prune_entity_free cs :
  Forall (λ c, iter EntityDescriptor c = []) cs →
  omap (λ c, if failing_record xsd_validate c then None
             else Some (pruned c)) cs = cs.
Proof.
  induction 1 as [|c cs Hc Hcs IH]; [done|].
  cbn [omap list_omap].
  assert (Hnf : failing_record xsd_validate c = false).
  { apply iter_nil_inv in Hc. unfold failing_record, is_entity.
    destruct Hc as [-> _]. done. }
  fold (omap (λ c, if failing_record xsd_validate c then None
                   else Some (pruned c)) cs).
  by rewrite Hnf, (prune_entity_free c Hc), IH.
Qed.

Lemma flat_records_eq e :
  flat_records e
  = if is_entity e then negb (has_entity_descendant e)
    else forallb flat_records (children e).
Proof. by destruct e. Qed.

Lemma filter_flat_map {A B} (P : B → Prop) `{!∀ x, Decision (P x)}
    (f : A → list B) (l : list A) :
  filter P (flat_map f l) = flat_map (λ x, filter P (f x)) l.
Proof.
  induction l as [|x l IH]; [done|]. simpl. by rewrite filter_app, IH.
Qed.

(** The records of a flat record: the record alone. *)
Lemma iter_flat_entity e :
  is_entity e = true → flat_records e = true →
  iter EntityDescriptor e = [e]
  ∧ Forall (λ c, iter EntityDescriptor c = []) (children e).
Proof.
  intros He Hf. rewrite flat_records_eq, He in Hf.
  apply negb_true_iff, has_entity_descendant_false in Hf.
  destruct Hf as [Hnil Hall]. split; [|done].
  rewrite iter_eq, Hnil. unfold is_entity in He. by rewrite He.
Qed.

Lemma failures_eq e :
  is_entity e = false →
  failures e = flat_map failures (children e).
Proof.
  intros He. unfold failing. rewrite iter_eq.
  unfold is_entity in He. rewrite He. simpl.
  unfold iter_forest. apply filter_flat_map.
Qed.

(** On a flat document the loop visits every record, removes the
    failing ones and runs to the end. *)
Lemma visit_flat (e : Element) :
  flat_records e = true →
  ∀ ve : errors,
    walk e ve
    = (if failing_record xsd_validate e then None else Some (pruned e),
       recorded (failures e) ve, false).
Proof.
  induction e as [tg attrs cs IH] using Element_ind'. intros Hf ve.
  set (e := Elem tg attrs cs) in *.
  destruct (is_entity e) eqn:He.
  - destruct (iter_flat_entity e He Hf) as [Hit Hall].
    rewrite flat_records_eq, He in Hf. apply negb_true_iff in Hf.
    rewrite visit_eq. unfold failing, failing_record. rewrite He, Hit, Hf.
    rewrite filter_cons, filter_nil.
    destruct (xsd_validate e) eqn:Hv; simpl.
    + rewrite visit_forest_entity_free by done.
      by rewrite (omap_prune_entity_free cs Hall).
    + done.
  - rewrite visit_eq, failures_eq by done.
    rewrite flat_records_eq, He in Hf. unfold failing_record. rewrite He.
    rewrite prune_eq. simpl in *. clear He e.
    assert (Hforest :
      visit_forest walk cs ve
      = (omap (λ c, if failing_record xsd_validate c then None
                    else Some (pruned c)) cs,
         recorded (flat_map failures cs) ve, false)).
    { revert ve. induction cs as [|c cs IHcs]; intros ve; [done|].
      apply Forall_cons in IH. destruct IH as [IHc IH].
      simpl in Hf. apply andb_true_iff in Hf. destruct Hf as [Hc Hcs].
      cbn [visit_forest flat_map]. rewrite (IHc Hc ve).
      rewrite (IHcs IH Hcs), record_failures_app.
      cbn [omap list_omap].
      by destruct (failing_record xsd_validate c). }
    by rewrite Hforest.
Qed.

(** The records left in a pruned flat document are the passing ones. *)
Lemma iter_prune_flat (e : Element) :
  flat_records e = true →
  (failing_record xsd_validate e = true →
     filter (λ x, xsd_validate x = true) (iter EntityDescriptor e) = [])
  ∧ (failing_record xsd_validate e = false →
     iter EntityDescriptor (pruned e)
     = filter (λ x, xsd_validate x = true) (iter EntityDescriptor e)).
Proof.
  induction e as [tg attrs cs IH] using Element_ind'. intros Hf.
  set (e := Elem tg attrs cs) in *.
  destruct (is_entity e) eqn:He.
  - destruct (iter_flat_entity e He Hf) as [Hit Hall].
    assert (Hp : pruned e = e)
      by (by rewrite prune_eq, (omap_prune_entity_free _ Hall)).
    unfold failing_record. rewrite He, Hit, Hp, Hit.
    destruct (xsd_validate e) eqn:Hv; cbn [andb negb]; split; intros H;
      try discriminate H.
    + by rewrite filter_cons_True.
    + rewrite filter_cons_False; [done | by rewrite Hv].
  - subst e. unfold failing_record. rewrite He. cbn [andb].
    split; [done|]. intros _.
    rewrite prune_eq, !iter_eq. cbn [tag attrib children].
    rewrite flat_records_eq, He in Hf. cbn [children] in Hf.
    unfold is_entity in He. cbn [tag] in He. rewrite He. cbn [app].
    clear He. unfold iter_forest.
    induction cs as [|c cs IHcs]; [done|].
    apply Forall_cons in IH. destruct IH as [IHc IH].
    simpl in Hf. apply andb_true_iff in Hf. destruct Hf as [Hc Hcs].
    cbn [omap list_omap flat_map]. rewrite filter_app.
    fold (omap (λ c, if failing_record xsd_validate c then None
                     else Some (pruned c)) cs).
    destruct (IHc Hc) as [Hfail Hpass].
    destruct (failing_record xsd_validate c) eqn:Hfc.
    + rewrite Hfail by done. simpl. by apply IHcs.
    + simpl. rewrite Hpass by done. f_equal. by apply IHcs.
Qed.

(** *** The error dictionary after recording a list of failures *)

Lemma recorded_lookup_other (l : list Element) (ve : errors) k :
  k ∉ (λ e, get e "entityID") <$> l →
  recorded l ve !! k = ve !! k.
Proof.
  revert ve. induction l as [|x l IH]; intros ve Hk; [done|].
  simpl in *. apply not_elem_of_cons in Hk. destruct Hk as [Hx Hl].
  unfold record_failures in *. simpl. rewrite IH by done.
  by rewrite lookup_insert_ne.
Qed.

Lemma recorded_lookup_failing (l : list Element) (ve : errors) e :
  e ∈ l →
  ∃ e', e' ∈ l ∧ get e' "entityID" = get e "entityID"
        ∧ recorded l ve !! get e "entityID" = Some (xml_error e' base_url).
Proof.
  revert ve e. induction l as [|x l IH]; intros ve e Hin;
    [by apply elem_of_nil in Hin|].
  assert (Hlater : ∀ e0, e0 ∈ l →
    ∃ e', e' ∈ x :: l ∧ get e' "entityID" = get e0 "entityID"
          ∧ recorded (x :: l) ve !! get e0 "entityID"
            = Some (xml_error e' base_url)).
  { intros e0 H0.
    destruct (IH (<[get x "entityID" := xml_error x base_url]> ve) e0 H0)
      as (e' & He' & Hid & Hl).
    exists e'. split; [by right | done]. }
  destruct (decide (get e "entityID" ∈ (λ e, get e "entityID") <$> l))
    as [Hdup|Hfresh].
  - apply list_elem_of_fmap in Hdup. destruct Hdup as (e0 & Hid0 & H0).
    rewrite Hid0. by apply Hlater.
  - apply elem_of_cons in Hin. destruct Hin as [->|Hin].
    + exists x. split; [left|]. split; [done|].
      unfold record_failures. simpl.
      fold (recorded l (<[get x "entityID" := xml_error x base_url]> ve)).
      rewrite recorded_lookup_other by done. apply lookup_insert_eq.
    + by apply Hlater.
Qed.

Lemma recorded_size (l : list Element) (ve : errors) :
  NoDup ((λ e, get e "entityID") <$> l) →
  (∀ e, e ∈ l → ve !! get e "entityID" = None) →
  size (recorded l ve) = size ve + length l.
Proof.
  revert ve. induction l as [|x l IH]; intros ve Hnd Hfresh; simpl.
  { unfold record_failures. simpl. lia. }
  rewrite fmap_cons in Hnd. apply NoDup_cons in Hnd.
  destruct Hnd as [Hx Hnd].
  unfold record_failures. simpl.
  fold (recorded l (<[get x "entityID" := xml_error x base_url]> ve)).
  rewrite IH; [| done |].
  - rewrite map_size_insert_None by (apply Hfresh; left). lia.
  - intros e He. rewrite lookup_insert_ne; [apply Hfresh; by right|].
    intros Heq. apply Hx. rewrite Heq. apply list_elem_of_fmap. eauto.
Qed.

Lemma filter_split_length (l : list Element) :
  length (filter (λ x, xsd_validate x = true) l)
  + length (filter (λ x, xsd_validate x = false) l) = length l.
Proof.
  induction l as [|x l IH]; [done|].
  destruct (xsd_validate x) eqn:E.
  - rewrite filter_cons_True, filter_cons_False by (by rewrite ?E).
    simpl. lia.
  - rewrite filter_cons_False, filter_cons_True by (by rewrite ?E).
    simpl. lia.
Qed.

End FilterProofs.

Section FilterEngine.

Variable xsd_validate : Element → bool.
Variable xml_error : Element → option string → string.
Variable base_url : option string.

(** C3, as the code has it: in a document whose root is not a failing
    record and in which no record lies inside another, filtering removes
    exactly the failing records and leaves the passing ones in place;
    the error dictionary gets the diagnostic of a failing record under
    each failing identifier and is unchanged elsewhere, so it grows by
    one entry per failing record when the failing identifiers are
    distinct and new.  With 3 records of which 1 fails, 2 records remain
    and an empty dictionary ends with that record's entry alone. *)
Theorem filter_removes_failing_records (t : Element)
    (ve : gmap (option string) string) :
  flat_records t = true →
  failing_record xsd_validate t = false →
  let t' := prune xsd_validate t in
  let failures := failing xsd_validate t in
  let ve' := record_failures xml_error base_url failures ve in
  filter_invalids_from_document xsd_validate xml_error base_url t ve
  = (Some t', ve')
  ∧ iter_entities (Some t')
    = filter (λ e, xsd_validate e = true) (iter_entities (Some t))
  ∧ (∀ e, e ∈ failures →
       ∃ e', e' ∈ failures ∧ get e' "entityID" = get e "entityID"
             ∧ ve' !! get e "entityID" = Some (xml_error e' base_url))
  ∧ (∀ k, k ∉ (λ e, get e "entityID") <$> failures → ve' !! k = ve !! k)
  ∧ (NoDup ((λ e, get e "entityID") <$> failures) →
     (∀ e, e ∈ failures → ve !! get e "entityID" = None) →
     size ve' = size ve + length failures)
  ∧ (length (iter_entities (Some t)) = 3 → length failures = 1 → ve = ∅ →
     length (iter_entities (Some t')) = 2
     ∧ ∃ e, failures = [e]
            ∧ ve' = {[ get e "entityID" := xml_error e base_url ]}
            ∧ size ve' = 1).
Proof.
  intros Hflat Hroot t' failures ve'.
  assert (Hiter : iter_entities (Some t')
                  = filter (λ e, xsd_validate e = true) (iter_entities (Some t))).
  { simpl. by apply iter_prune_flat. }
  split; [|split; [exact Hiter|split; [|split; [|split]]]].
  - unfold filter_invalids_from_document. rewrite Hroot.
    rewrite visit_flat by done. by rewrite Hroot.
  - intros e He. by apply recorded_lookup_failing.
  - intros k Hk. by apply recorded_lookup_other.
  - intros Hnd Hfresh. by apply recorded_size.
  - intros H3 H1 ->.
    pose proof (filter_split_length xsd_validate (iter_entities (Some t))) as Hs.
    rewrite <- Hiter in Hs. simpl in Hs, H3.
    fold (failing xsd_validate t) in Hs. fold failures in Hs.
    split; [simpl; lia|].
    destruct failures as [|e [|e2 rest]] eqn:Hfs; simpl in H1; try lia.
    exists e. split; [done|]. subst ve'. unfold record_failures. simpl.
    split; [by rewrite insert_empty|].
    rewrite insert_empty. apply map_size_singleton.
Qed.

(** C4: when the root itself is a record that fails validation, the
    filter returns [None] and the error dictionary holds the failure
    under the record's identifier. *)
Theorem filter_rejects_failing_root (t : Element)
    (ve : gmap (option string) string) :
  is_entity t = true →
  xsd_validate t = false →
  ∃ ve',
    filter_invalids_from_document xsd_validate xml_error base_url t ve
    = (None, ve')
    ∧ ve' !! get t "entityID" = Some (xml_error t base_url)
    ∧ (∀ k, k ≠ get t "entityID" → ve' !! k = ve !! k).
Proof.
  intros He Hv. exists (<[get t "entityID" := xml_error t base_url]> ve).
  unfold filter_invalids_from_document, failing_record. rewrite He, Hv. simpl.
  split; [done|]. split; [apply lookup_insert_eq|].
  intros k Hk. by apply lookup_insert_ne.
Qed.

End FilterEngine.

(** C3, as stated, fails: two failing records with one identifier leave
    one entry in the error dictionary, not two. *)
Lemma filter_duplicate_identifier_one_entry :
  failing sample_schema federation_with_duplicate
  = [sp_without_role; sp_without_role_again]
  ∧ ∃ ve : gmap (option string) string,
      ve = {[ Some "https://sp.example.org"
                := sample_error sp_without_role_again None ]}
      ∧ filter_invalids_from_document sample_schema sample_error None
          federation_with_duplicate ∅
        = (Some (container "federation" [idp_record]), ve)
      ∧ size ve = 1
      ∧ size ve ≠ length (failing sample_schema federation_with_duplicate).
Proof.
  split; [by vm_compute|].
  eexists. split; [reflexivity|]. split; [by vm_compute|].
  split; by vm_compute.
Qed.

(** ** Expiration calculator *)

Section ExpirationProofs.

Variable iso2datetime : string → result datetime.
Variable duration2timedelta : string → option timedelta.
Variable cfg : config.




(** The two calculators agree unless [cacheDuration] is present and
    empty. *)
Lemma expiration_agrees clock t :
  get t "cacheDuration" ≠ Some "" →
  expiration iso2datetime duration2timedelta cfg clock t
  = metadata_expiration iso2datetime duration2timedelta cfg clock t.
Proof.
  intros Hcd. unfold expiration, metadata_expiration, root.
  destruct (is_metadata_root t); [|done].
  destruct (get t "validUntil"); [done|].
  destruct (respect_cache_duration cfg); [|done].
  unfold get_default, get in *.
  destruct (attrib t !! "cacheDuration") as [cd|] eqn:E.
  - rewrite bool_decide_eq_false_2; [done | congruence].
  - by case_bool_decide.
Qed.

End ExpirationProofs.

(** C7: on a root whose [cacheDuration] is present and empty,
    [metadata_expiration] falls back to the configured default while
    [expiration] hands the empty text to [duration2timedelta]. *)
Theorem expiration_differs_on_empty_cache_duration :
  metadata_expiration sample_iso2datetime xml_duration sample_config
    sample_clock container_with_empty_cache_duration
  = Ok (Some (seconds 3600))
  ∧ expiration sample_iso2datetime xml_duration sample_config
      sample_clock container_with_empty_cache_duration
    = Ok None.
Proof. split; reflexivity. Qed.

(** ** Provenance annotator *)

Section PubInfo.

Implicit Types (e ext pi : Element).






End PubInfo.

(** ** Parser/validator pipeline *)

Section PipelineProofs.

Variable parse_xml : string → option string → result Element.
Variable xinclude : Element → result Element.
Variable check_signature : Element → option string → result Element.
Variable validate_document : Element → bool.
Variable xsd_validate : Element → bool.
Variable xml_error : Element → option string → string.
Variable iso2datetime : string → result datetime.
Variable duration2timedelta : string → option timedelta.
Variable cfg : config.

Implicit Types (clock : Z * Z) (source : string) (key base_url : option string)
  (fail_on_error filter_invalid validate : bool) (ex : exn)
  (validation_errors : option (gmap (option string) string)).

#[local] Abbreviation suite :=
  (try_suite parse_xml xinclude check_signature validate_document
     xsd_validate xml_error iso2datetime duration2timedelta cfg).
#[local] Abbreviation parse :=
  (parse_saml_metadata parse_xml xinclude check_signature validate_document
     xsd_validate xml_error iso2datetime duration2timedelta cfg).

(** Where the exceptions of the suite come from. *)
Lemma try_suite_parse_error clock source key base_url filter_invalid
    validate (ve : gmap (option string) string) ex :
  parse_xml source base_url = Raise ex →
  (suite clock source key base_url filter_invalid validate ve).1 = Raise ex.
Proof. intros H. unfold try_suite. by rewrite H. Qed.

Lemma try_suite_signature_error clock source key base_url filter_invalid
    validate (ve : gmap (option string) string) t t' off ex :
  parse_xml source base_url = Ok t →
  xinclude t = Ok t' →
  metadata_expiration iso2datetime duration2timedelta cfg clock t' = Ok off →
  check_signature t' key = Raise ex →
  (suite clock source key base_url filter_invalid validate ve).1 = Raise ex.
Proof.
  intros H1 H2 H3 H4. unfold try_suite. rewrite H1. cbn.
  rewrite H2. cbn. rewrite H3. cbn. by rewrite H4.
Qed.

Lemma try_suite_schema_error clock source key base_url
    (ve : gmap (option string) string) t t' off t'' :
  parse_xml source base_url = Ok t →
  xinclude t = Ok t' →
  metadata_expiration iso2datetime duration2timedelta cfg clock t' = Ok off →
  check_signature t' key = Ok t'' →
  validate_document (strip_ids t'') = false →
  ∃ msg,
    (suite clock source key base_url false true ve).1
    = Raise (MetadataException msg).
Proof.
  intros H1 H2 H3 H4 H5. unfold try_suite. rewrite H1. cbn.
  rewrite H2. cbn. rewrite H3. cbn. rewrite H4. cbn.
  unfold root. rewrite H5. by eexists.
Qed.

Lemma try_suite_expiration_error clock source key base_url filter_invalid
    validate (ve : gmap (option string) string) t t' ex :
  parse_xml source base_url = Ok t →
  xinclude t = Ok t' →
  metadata_expiration iso2datetime duration2timedelta cfg clock t' = Raise ex →
  (suite clock source key base_url filter_invalid validate ve).1 = Raise ex.
Proof.
  intros H1 H2 H3. unfold try_suite. rewrite H1. cbn.
  rewrite H2. cbn. by rewrite H3.
Qed.

(** C5: whatever exception ends the [try] suite, [parse_saml_metadata]
    raises it again when [fail_on_error] is set and otherwise returns
    the pair [(None, None)]; and it raises nothing else. *)
Theorem parse_saml_metadata_error_policy clock source key base_url
    fail_on_error filter_invalid validate validation_errors ex :
  (try_suite parse_xml xinclude check_signature validate_document
     xsd_validate xml_error iso2datetime duration2timedelta cfg
     clock source key base_url filter_invalid validate
     (default ∅ validation_errors)).1 = Raise ex →
  (fail_on_error = true →
     (parse_saml_metadata parse_xml xinclude check_signature validate_document
        xsd_validate xml_error iso2datetime duration2timedelta cfg
        clock source key base_url fail_on_error filter_invalid validate
        validation_errors).1 = Raise ex)
  ∧ (fail_on_error = false →
     (parse_saml_metadata parse_xml xinclude check_signature validate_document
        xsd_validate xml_error iso2datetime duration2timedelta cfg
        clock source key base_url fail_on_error filter_invalid validate
        validation_errors).1 = Ok (None, None))
  ∧ (∀ ex',
       (parse_saml_metadata parse_xml xinclude check_signature validate_document
          xsd_validate xml_error iso2datetime duration2timedelta cfg
          clock source key base_url fail_on_error filter_invalid validate
          validation_errors).1 = Raise ex' →
       fail_on_error = true ∧ ex' = ex).
Proof.
  intros Hraise. unfold parse_saml_metadata.
  destruct (suite clock source key base_url filter_invalid validate
              (default ∅ validation_errors)) as [r ve] eqn:Hs.
  simpl in Hraise. subst r.
  split; [by intros ->|]. split; [by intros ->|].
  intros ex'. destruct fail_on_error; simpl; [|done].
  by intros [= ->].
Qed.

(** Without an exception in the suite the call returns what the suite
    left in [t] and [expire_time_offset]. *)
Lemma parse_saml_metadata_returns clock source key base_url
    fail_on_error filter_invalid validate validation_errors r :
  (suite clock source key base_url filter_invalid validate
     (default ∅ validation_errors)).1 = Ok r →
  (parse clock source key base_url fail_on_error filter_invalid validate
     validation_errors).1 = Ok r.
Proof.
  intros Hok. unfold parse_saml_metadata.
  destruct (suite clock source key base_url filter_invalid validate
              (default ∅ validation_errors)) as [r' ve] eqn:Hs.
  simpl in Hok. subst r'. by destruct r.
Qed.

End PipelineProofs.

(** ** The theorems at sample inputs *)

Lemma entitiesdescriptor_first_seen_wins_witness :
  entitiesdescriptor sample_schema sample_refs "agg" (Some sample_lookup)
    None None true true
  = Ok (Some (container "agg" [idp_record; sp_record]))
  ∧ ∃ cands,
      candidates (Some sample_lookup) sample_refs = Ok cands
      ∧ children (container "agg" [idp_record; sp_record])
        = first_occurrences cands
      ∧ children (container "agg" [idp_record; sp_record]) `sublist_of` cands
      ∧ NoDup (identifiers (children (container "agg" [idp_record; sp_record])))
      ∧ length (children (container "agg" [idp_record; sp_record]))
        = size (list_to_set (identifiers cands) : gset string)
      ∧ (∀ m, m ∈ children (container "agg" [idp_record; sp_record]) →
           ∃ i k, get m "entityID" = Some i
                  ∧ list_find (λ c, get c "entityID" = Some i) cands = Some (k, m))
      ∧ (∀ i, i ∈ identifiers cands →
           ∃ m, m ∈ children (container "agg" [idp_record; sp_record])
                ∧ get m "entityID" = Some i).
Proof.
  split; [reflexivity|].
  apply (entitiesdescriptor_first_seen_wins sample_schema sample_refs "agg"
           (Some sample_lookup) None None true true).
  reflexivity.
Defined.

Lemma entitiesdescriptor_absent_iff_no_candidate_witness :
  entitiesdescriptor sample_schema [GroupName "idps"] "agg"
    (Some sample_lookup) None None true true = Ok None
  ∧ candidates (Some sample_lookup) [GroupName "idps"] = Ok [].
Proof.
  split; [|reflexivity].
  apply (proj1 (entitiesdescriptor_absent_iff_no_candidate sample_schema
                  [GroupName "idps"] "agg" (Some sample_lookup)
                  None None true true)).
  reflexivity.
Defined.

Lemma filter_removes_failing_records_witness :
  flat_records federation = true
  ∧ failing_record sample_schema federation = false
  ∧ filter_invalids_from_document sample_schema sample_error None federation ∅
    = (Some (prune sample_schema federation),
       record_failures sample_error None (failing sample_schema federation) ∅)
  ∧ prune sample_schema federation
    = container "federation" [idp_record; sp_record]
  ∧ record_failures sample_error None (failing sample_schema federation) ∅
    = {[ Some "https://sp.example.org" := sample_error sp_without_role None ]}.
Proof.
  split; [reflexivity|]. split; [reflexivity|].
  split; [|split; by vm_compute].
  apply (filter_removes_failing_records sample_schema sample_error None
           federation ∅); reflexivity.
Defined.

Lemma filter_rejects_failing_root_witness :
  is_entity sp_without_role = true
  ∧ sample_schema sp_without_role = false
  ∧ ∃ ve',
      filter_invalids_from_document sample_schema sample_error None
        sp_without_role ∅ = (None, ve')
      ∧ ve' !! get sp_without_role "entityID"
        = Some (sample_error sp_without_role None)
      ∧ (∀ k, k ≠ get sp_without_role "entityID" →
           ve' !! k = (∅ : gmap (option string) string) !! k).
Proof.
  split; [reflexivity|]. split; [reflexivity|].
  apply (filter_rejects_failing_root sample_schema sample_error None
           sp_without_role ∅); reflexivity.
Defined.

Lemma parse_saml_metadata_error_policy_witness :
  (try_suite sample_parse_xml sample_xinclude sample_check_signature
     sample_schema sample_schema sample_error sample_iso2datetime xml_duration
     sample_config sample_clock "" None None true true (default ∅ None)).1
  = Raise (OtherException "XMLSyntaxError" "Document is empty")
  ∧ (parse_saml_metadata sample_parse_xml sample_xinclude
       sample_check_signature sample_schema sample_schema sample_error
       sample_iso2datetime xml_duration sample_config sample_clock
       "" None None true true true None).1
    = Raise (OtherException "XMLSyntaxError" "Document is empty")
  ∧ (parse_saml_metadata sample_parse_xml sample_xinclude
       sample_check_signature sample_schema sample_schema sample_error
       sample_iso2datetime xml_duration sample_config sample_clock
       "" None None false true true None).1
    = Ok (None, None).
Proof.
  split; [reflexivity|]. split.
  - apply (parse_saml_metadata_error_policy sample_parse_xml sample_xinclude
             sample_check_signature sample_schema sample_schema sample_error
             sample_iso2datetime xml_duration sample_config sample_clock
             "" None None true true true None
             (OtherException "XMLSyntaxError" "Document is empty"));
      reflexivity.
  - apply (parse_saml_metadata_error_policy sample_parse_xml sample_xinclude
             sample_check_signature sample_schema sample_schema sample_error
             sample_iso2datetime xml_duration sample_config sample_clock
             "" None None false true true None
             (OtherException "XMLSyntaxError" "Document is empty"));
      reflexivity.
Defined.


Lemma entityset_add_present_replaces_witness :
  let earlier := record "https://idp.example.org" [idp_role] in
  let later := record "https://idp.example.org" [sp_role] in
  let s := EntitySet.add earlier EntitySet.empty in
  EntitySet.contains later s = true
  ∧ EntitySet._e (EntitySet.add later s) !! get later "entityID" = Some later
  ∧ EntitySet.len (EntitySet.add later s) = EntitySet.len s.
Proof.
  cbv zeta. split; [reflexivity|].
  pose proof (proj1 entityset_add_present_replaces
                (EntitySet.add (record "https://idp.example.org" [idp_role])
                   EntitySet.empty)
                (record "https://idp.example.org" [sp_role])
                eq_refl) as H.
  split; [apply H | apply H].
Defined.


(** ** The functions at sample inputs *)

(** Where a record lies inside another that fails, the loop walks the
    removed subtree and ends there: the record inside goes with the outer
    one although it passes, and the failing record after them stays. *)
Lemma filter_nested_records :
  filter_invalids_from_document sample_schema sample_error None
    nested_federation ∅
  = (Some (container "federation" [sp_without_role]),
     {[ Some "https://outer.example.org" :=
          sample_error (Elem EntityDescriptor
                          {[ "entityID" := "https://outer.example.org" ]}
                          [idp_record]) None ]})
  ∧ sample_schema idp_record = true
  ∧ sample_schema sp_without_role = false.
Proof. repeat split; by vm_compute. Qed.

(** With validation on, a container without members is left to the
    schema, which refuses it. *)
Lemma entitiesdescriptor_empty_refused_by_schema :
  entitiesdescriptor sample_schema [Direct anonymous_record] "agg"
    None None None true true
  = Raise (MetadataException "XML schema validation failed: agg").
Proof. reflexivity. Qed.

(** The pipeline on the sample document: the record without role is
    filtered out and reported. *)
Lemma parse_saml_metadata_sample :
  parse_saml_metadata sample_parse_xml sample_xinclude sample_check_signature
    sample_schema sample_schema sample_error sample_iso2datetime xml_duration
    sample_config sample_clock "<EntitiesDescriptor/>" None
    (Some "https://md.example.org") false true true None
  = (Ok (Some (container "federation" [idp_record; sp_record]),
         Some (seconds 3600)),
     {[ Some "https://sp.example.org" :=
          sample_error sp_without_role (Some "https://md.example.org") ]}).
Proof. by vm_compute. Qed.

(** The second call of [set_pubinfo] leaves one [PublicationInfo]. *)
Lemma set_pubinfo_sample :
  set_pubinfo "2026-11-04T12:00:00Z" (container "agg" [idp_record])
    (Some "https://registrar.example.org") None
  = Ok (Elem EntitiesDescriptor {[ "Name" := "agg" ]}
          [Elem Extensions ∅
             [Elem PublicationInfo
                (<["creationInstant" := "2026-11-04T12:00:00Z"]>
                   {[ "publisher" := "https://registrar.example.org" ]}) []];
           idp_record]).
Proof. by vm_compute. Qed.

Lemma xml_duration_samples :
  xml_duration "PT1H" = Some (seconds 3600)
  ∧ xml_duration "P1DT2H3M4S" = Some (seconds 93784)
  ∧ xml_duration "-PT30m" = Some (seconds (-1800))
  ∧ xml_duration "" = None.
Proof. repeat split; reflexivity. Qed.

(** * Further properties *)

(** ** Entity set: [add], [discard], [__contains__], [__len__], [__init__] *)

(** X1: after [add] the set contains the record and yields it under its
    identifier; membership of records with another identifier is as
    before, and the length grows by one when the identifier was new. *)
Theorem entityset_add_contains (s : EntitySet.t) (v : Element) :
  EntitySet.contains v (EntitySet.add v s) = true
  ∧ v ∈ EntitySet.values (EntitySet.add v s)
  ∧ (∀ w, get w "entityID" ≠ get v "entityID" →
       EntitySet.contains w (EntitySet.add v s) = EntitySet.contains w s)
  ∧ (EntitySet.contains v s = false →
       EntitySet.len (EntitySet.add v s) = S (EntitySet.len s)).
Proof.
  unfold EntitySet.contains, EntitySet.add, EntitySet.values, EntitySet.len;
    simpl.
  split; [|split; [|split]].
  - apply bool_decide_eq_true. rewrite lookup_insert_eq. eauto.
  - apply list_elem_of_fmap. exists (get v "entityID", v). split; [done|].
    apply elem_of_map_to_list, lookup_insert_eq.
  - intros w Hw. by rewrite lookup_insert_ne.
  - intros Hc. apply bool_decide_eq_false in Hc.
    apply map_size_insert_None. by apply eq_None_not_Some.
Qed.

(** X2: [discard] removes whatever record is stored under the identifier
    of its argument: afterwards that identifier is absent, the other
    entries are untouched, the length drops by one when the identifier was
    present, and the set is unchanged when it was not. *)
Theorem entityset_discard_by_identifier (s : EntitySet.t) (v : Element) :
  EntitySet.contains v (EntitySet.discard v s) = false
  ∧ (∀ w, get w "entityID" = get v "entityID" →
       EntitySet.discard w s = EntitySet.discard v s)
  ∧ (∀ k, k ≠ get v "entityID" →
       EntitySet._e (EntitySet.discard v s) !! k = EntitySet._e s !! k)
  ∧ (EntitySet.contains v s = true →
       EntitySet.len s = S (EntitySet.len (EntitySet.discard v s)))
  ∧ (EntitySet.contains v s = false → EntitySet.discard v s = s).
Proof.
  unfold EntitySet.contains, EntitySet.discard, EntitySet.len.
  split; [|split; [|split; [|split]]].
  - apply bool_decide_eq_false.
    destruct (EntitySet._e s !! get v "entityID") eqn:E; simpl.
    + rewrite lookup_delete_eq. by intros [? ?].
    + rewrite E. by intros [? ?].
  - intros w Hw. by rewrite Hw.
  - intros k Hk.
    destruct (EntitySet._e s !! get v "entityID") eqn:E; simpl; [|done].
    by rewrite lookup_delete_ne.
  - intros Hc. apply bool_decide_eq_true in Hc. destruct Hc as [x Hx].
    rewrite Hx. simpl. rewrite map_size_delete_Some by eauto.
    assert (size (EntitySet._e s) ≠ 0); [|lia].
    intros H0. apply map_size_empty_inv in H0. rewrite H0 in Hx.
    by rewrite lookup_empty in Hx.
  - intros Hc. apply bool_decide_eq_false in Hc.
    destruct (EntitySet._e s !! get v "entityID") eqn:E; [|done].
    destruct Hc. eauto.
Qed.

(** X3: [add] and [discard] undo each other: discarding a record just
    added under a new identifier gives the set back, and so does adding
    again the stored record that was discarded. *)
Theorem entityset_add_discard_round_trip (s : EntitySet.t) (v : Element) :
  (EntitySet.contains v s = false →
     EntitySet.discard v (EntitySet.add v s) = s)
  ∧ (EntitySet._e s !! get v "entityID" = Some v →
     EntitySet.add v (EntitySet.discard v s) = s).
Proof.
  unfold EntitySet.contains, EntitySet.discard, EntitySet.add.
  destruct s as [m]; simpl. split.
  - intros Hc. apply bool_decide_eq_false in Hc.
    rewrite lookup_insert_eq. f_equal.
    rewrite delete_insert_eq. apply delete_id. by apply eq_None_not_Some.
  - intros Hv. rewrite Hv. simpl. f_equal.
    rewrite insert_delete_eq. by apply insert_id.
Qed.

Lemma list_find_cons {A} (P : A → Prop) `{!∀ x, Decision (P x)} (x : A) (l : list A) :
  list_find P (x :: l)
  = if decide (P x) then Some (0, x) else prod_map S id <$> list_find P l.
Proof. reflexivity. Qed.

Lemma entityset_init_snoc l x :
  EntitySet.init (Some (l ++ [x])) = EntitySet.add x (EntitySet.init (Some l)).
Proof. unfold EntitySet.init. by rewrite foldl_app. Qed.

Lemma entityset_init_dom (l : list Element) :
  dom (EntitySet._e (EntitySet.init (Some l)))
  = (list_to_set ((λ e, get e "entityID") <$> l) : gset (option string)).
Proof.
  induction l as [|x l IH] using rev_ind; [done|].
  rewrite entityset_init_snoc, fmap_app, list_to_set_app_L.
  unfold EntitySet.add. cbn [EntitySet._e].
  rewrite dom_insert_L, IH. cbn [fmap list_fmap list_to_set].
  rewrite union_empty_r_L. apply (comm_L (∪)).
Qed.

(** X4: a set built from a list holds, under every identifier, the last
    record of the list with that identifier, and its length is the number
    of distinct identifiers in the list. *)
Theorem entityset_init_last_wins (l : list Element) :
  (∀ k, EntitySet._e (EntitySet.init (Some l)) !! k
        = snd <$> list_find (λ e, get e "entityID" = k) (reverse l))
  ∧ EntitySet.len (EntitySet.init (Some l))
    = size (list_to_set ((λ e, get e "entityID") <$> l) : gset (option string)).
Proof.
  split.
  - induction l as [|x l IHl] using rev_ind.
    { intros k. simpl. apply lookup_empty. }
    intros k. rewrite entityset_init_snoc, reverse_snoc, list_find_cons.
    unfold EntitySet.add. cbn [EntitySet._e]. rewrite lookup_insert.
    destruct (decide (get x "entityID" = k)) as [Hk|Hk]; [done|].
    rewrite IHl. by destruct (list_find _ (reverse l)) as [[i e]|].
  - unfold EntitySet.len. by rewrite <- entityset_init_dom, size_dom.
Qed.

(** ** Merge/aggregation engine: further properties *)

Section AggregationExtras.

Variable validate_document : Element → bool.

Implicit Types (l m : list Element) (cands : list Element).

Lemma first_occurrences_app l1 l2 :
  first_occurrences (l1 ++ l2)
  = first_occurrences l1
    ++ filter (λ y, Forall (λ c, get c "entityID" ≠ get y "entityID") l1)
         (first_occurrences l2).
Proof.
  induction l1 as [|x r IH]; simpl.
  { symmetry. clear. induction (first_occurrences l2) as [|y m IHm]; [done|].
    rewrite filter_cons_True by constructor. by rewrite IHm. }
  destruct (get x "entityID") as [i|] eqn:E.
  - rewrite IH, filter_app, list_filter_filter. simpl. do 2 f_equal.
    apply filter_iff_elem. intros y _. rewrite Forall_cons, E.
    split; [intros [? ?]; split; congruence | intros [? ?]; split; congruence].
  - rewrite IH. f_equal. apply filter_iff_elem. intros y Hy.
    apply first_occurrences_have_id in Hy. destruct Hy as [j Hj].
    rewrite Forall_cons, E, Hj. split; [intros ?; split; congruence | tauto].
Qed.

Lemma first_occurrences_twice l :
  first_occurrences (l ++ l) = first_occurrences l.
Proof.
  rewrite first_occurrences_app.
  assert (Hnil : filter (λ y, Forall (λ c, get c "entityID" ≠ get y "entityID") l)
                   (first_occurrences l) = []).
  { pose proof (first_occurrences_sublist l) as Hsub.
    assert (Hin : ∀ y, y ∈ first_occurrences l → y ∈ l)
      by (intros y Hy; by eapply elem_of_sublist).
    clear Hsub. induction (first_occurrences l) as [|y m IHm]; [done|].
    rewrite filter_cons_False.
    - apply IHm. intros z Hz. apply Hin. by right.
    - intros Hall. rewrite Forall_forall in Hall.
      by apply (Hall y); [apply Hin; left|]. }
  by rewrite Hnil, app_nil_r.
Qed.

(** A list of records with pairwise different identifiers is its own list
    of first occurrences. *)
Lemma first_occurrences_id m :
  (∀ y, y ∈ m → is_Some (get y "entityID")) →
  NoDup (identifiers m) →
  first_occurrences m = m.
Proof.
  induction m as [|x r IH]; intros Hid Hnd; [done|]. simpl.
  destruct (Hid x) as [i Hi]; [left|]. rewrite Hi.
  unfold identifiers in Hnd. simpl in Hnd. rewrite Hi in Hnd.
  apply NoDup_cons in Hnd. destruct Hnd as [Hni Hnd].
  rewrite IH; [| intros y Hy; apply Hid; by right | done].
  f_equal. clear IH Hnd.
  induction r as [|y r IHr]; [done|].
  rewrite filter_cons_True.
  - f_equal. apply IHr.
    + intros z Hz. apply Hid. apply elem_of_cons in Hz.
      destruct Hz as [->|Hz]; [left | right; by right].
    + intros Hin. apply Hni. simpl.
      destruct (get y "entityID"); [by right | done].
  - intros Hy. apply Hni. simpl. rewrite Hy. left.
Qed.

Lemma candidates_raise lookup_fn entities ex :
  candidates lookup_fn entities = Raise ex →
  lookup_fn = None
  ∧ (∃ n, GroupName n ∈ entities)
  ∧ ex = TypeError "'NoneType' object is not callable".
Proof.
  induction entities as [|[member|member] rest IH]; simpl; [done| |].
  - destruct (candidates lookup_fn rest) as [l|ex'] eqn:E; [done|].
    intros [= <-]. destruct (IH eq_refl) as (H1 & [n Hn] & H3).
    split; [done|]. split; [|done]. exists n. by right.
  - destruct lookup_fn as [f|].
    + destruct (candidates (Some f) rest) as [l|ex'] eqn:E; [done|].
      intros [= <-]. by destruct (IH eq_refl) as (H1 & _).
    + intros [= <-]. split; [done|]. split; [|done]. exists member. left.
Qed.

Lemma candidates_app lookup_fn (a b : list EntityRef) :
  candidates lookup_fn (a ++ b)
  = match candidates lookup_fn a, candidates lookup_fn b with
    | Ok la, Ok lb => Ok (la ++ lb)
    | Raise ex, _ => Raise ex
    | Ok _, Raise ex => Raise ex
    end.
Proof.
  induction a as [|[member|member] rest IH]; simpl.
  - by destruct (candidates lookup_fn b).
  - rewrite IH.
    destruct (candidates lookup_fn rest) as [la|ex] eqn:Ea,
             (candidates lookup_fn b) as [lb|ex'] eqn:Eb; done.
  - destruct lookup_fn as [f|].
    + rewrite IH.
      destruct (candidates (Some f) rest) as [la|ex] eqn:Ea,
               (candidates (Some f) b) as [lb|ex'] eqn:Eb; simpl; try done.
      by rewrite app_assoc.
    + done.
Qed.

Lemma candidates_direct lookup_fn l :
  candidates lookup_fn (Direct <$> l) = Ok l.
Proof.
  induction l as [|x l IH]; [done|].
  rewrite fmap_cons. cbn [candidates]. by rewrite IH.
Qed.

(** X5: the container that is returned is an [EntitiesDescriptor] whose
    [Name] is the given name and whose [cacheDuration] and [validUntil]
    are the given ones, absent when not given. *)
Theorem entitiesdescriptor_attributes entities name lookup_fn cache_duration
    valid_until validate copy t :
  entitiesdescriptor validate_document entities name lookup_fn
    cache_duration valid_until validate copy = Ok (Some t) →
  tag t = EntitiesDescriptor
  ∧ get t "Name" = Some name
  ∧ get t "cacheDuration" = cache_duration
  ∧ get t "validUntil" = valid_until.
Proof.
  rewrite entitiesdescriptor_unfold.
  destruct (candidates lookup_fn entities) as [cands|ex]; [|done].
  cbn [mbind result_bind bind]. cbv zeta. intros H.
  assert (Ht : t = Elem EntitiesDescriptor
                     (container_attrs name cache_duration valid_until)
                     (first_occurrences cands)).
  { case_bool_decide; [done|].
    destruct validate; [destruct (validate_document _)|]; by inversion H. }
  subst t. unfold get, container_attrs; simpl.
  split; [done|].
  destruct cache_duration, valid_until; by simplify_map_eq.
Qed.

(** X6: listing the same references a second time changes nothing. *)
Theorem entitiesdescriptor_relisting entities name lookup_fn cache_duration
    valid_until validate copy :
  entitiesdescriptor validate_document (entities ++ entities) name lookup_fn
    cache_duration valid_until validate copy
  = entitiesdescriptor validate_document entities name lookup_fn
      cache_duration valid_until validate copy.
Proof.
  rewrite !entitiesdescriptor_unfold, candidates_app.
  destruct (candidates lookup_fn entities) as [cands|ex]; [|done].
  cbn [mbind result_bind bind]. cbv zeta.
  rewrite first_occurrences_twice.
  destruct cands; [done|]. by rewrite !bool_decide_eq_false_2.
Qed.

(** X7: merging the members of a returned container again, under the
    same name and attributes, gives that container back. *)
Theorem entitiesdescriptor_remerge entities name lookup_fn lookup_fn'
    cache_duration valid_until validate copy copy' t :
  entitiesdescriptor validate_document entities name lookup_fn
    cache_duration valid_until validate copy = Ok (Some t) →
  children t ≠ [] →
  entitiesdescriptor validate_document (Direct <$> children t) name lookup_fn'
    cache_duration valid_until validate copy' = Ok (Some t).
Proof.
  rewrite !entitiesdescriptor_unfold, candidates_direct.
  destruct (candidates lookup_fn entities) as [cands|ex]; [|done].
  cbn [mbind result_bind bind]. cbv zeta. intros H Hne.
  assert (Ht : t = Elem EntitiesDescriptor
                     (container_attrs name cache_duration valid_until)
                     (first_occurrences cands)).
  { case_bool_decide; [done|].
    destruct validate; [destruct (validate_document _)|]; by inversion H. }
  assert (Hfo : first_occurrences (children t) = children t).
  { subst t. simpl. apply first_occurrences_id.
    - apply first_occurrences_have_id.
    - apply first_occurrences_NoDup. }
  rewrite Hfo.
  rewrite bool_decide_eq_false_2 by (by destruct (children t)).
  rewrite bool_decide_eq_false_2 in H
    by (intros H0; destruct cands; [by subst t|done]).
  subst t. simpl in *. exact H.
Qed.

(** X8: [entitiesdescriptor] raises in two cases only: a [TypeError]
    when a name is to be looked up and there is no [lookup_fn], and a
    [MetadataException] naming the aggregate when validation is on and
    the assembled container fails it. *)
Theorem entitiesdescriptor_raises entities name lookup_fn cache_duration
    valid_until validate copy ex :
  entitiesdescriptor validate_document entities name lookup_fn
    cache_duration valid_until validate copy = Raise ex →
  (lookup_fn = None
   ∧ (∃ n, GroupName n ∈ entities)
   ∧ ex = TypeError "'NoneType' object is not callable")
  ∨ (validate = true
     ∧ ex = MetadataException ("XML schema validation failed: " +:+ name)
     ∧ ∃ cands,
         candidates lookup_fn entities = Ok cands
         ∧ validate_document
             (Elem EntitiesDescriptor
                (container_attrs name cache_duration valid_until)
                (first_occurrences cands)) = false).
Proof.
  rewrite entitiesdescriptor_unfold.
  destruct (candidates lookup_fn entities) as [cands|ex'] eqn:Ec.
  - cbn [mbind result_bind bind]. cbv zeta.
    case_bool_decide; [done|].
    destruct validate; [|done].
    destruct (validate_document _) eqn:Ev; [done|].
    intros [= <-]. right. eauto.
  - intros [= <-]. left. by apply candidates_raise.
Qed.

Lemma list_find_filter_implied (P Q : Element → Prop)
    `{!∀ x, Decision (P x)} `{!∀ x, Decision (Q x)} m :
  (∀ x, P x → Q x) →
  snd <$> list_find P (filter Q m) = snd <$> list_find P m.
Proof.
  intros HPQ. induction m as [|x m IH]; [done|].
  rewrite list_find_cons. destruct (decide (P x)) as [HP|HP].
  - rewrite filter_cons_True by auto. rewrite list_find_cons.
    by rewrite decide_True.
  - destruct (decide (Q x)).
    + rewrite filter_cons_True by done. rewrite list_find_cons.
      rewrite decide_False by done.
      destruct (list_find P (filter Q m)) as [[i a]|],
               (list_find P m) as [[j b]|]; simpl in *; congruence.
    + rewrite filter_cons_False by done.
      destruct (list_find P (filter Q m)) as [[i a]|],
               (list_find P m) as [[j b]|]; simpl in *; congruence.
Qed.

Lemma snd_shift {A} (o : option (nat * A)) :
  snd <$> (prod_map S id <$> o) = snd <$> o.
Proof. by destruct o as [[k a]|]. Qed.

Lemma list_find_first_occurrences l i :
  snd <$> list_find (λ c, get c "entityID" = Some i) (first_occurrences l)
  = snd <$> list_find (λ c, get c "entityID" = Some i) l.
Proof.
  induction l as [|x l IH]; [done|]. simpl first_occurrences.
  rewrite (list_find_cons _ x l).
  destruct (get x "entityID") as [j|] eqn:E.
  - rewrite list_find_cons, E.
    destruct (decide (Some j = Some i)) as [Hj|Hj]; [done|].
    rewrite !snd_shift, <- IH.
    apply list_find_filter_implied. congruence.
  - rewrite decide_False by done. by rewrite snd_shift.
Qed.

Lemma iter_forest_singletons tg m :
  Forall (λ c, iter tg c = [c]) m → iter_forest tg m = m.
Proof.
  unfold iter_forest. induction 1 as [|c m Hc _ IHm]; [done|].
  cbn [flat_map]. by rewrite Hc, IHm.
Qed.

(** X9: when the candidates are records that hold no other record,
    looking an identifier up in the merged container finds the first
    candidate with that identifier. *)
Theorem find_entity_in_merged entities name lookup_fn cache_duration
    valid_until validate copy t cands i :
  entitiesdescriptor validate_document entities name lookup_fn
    cache_duration valid_until validate copy = Ok (Some t) →
  candidates lookup_fn entities = Ok cands →
  Forall (λ c, iter EntityDescriptor c = [c]) cands →
  find_entity (Some t) (Some i) "entityID"
  = snd <$> list_find (λ c, get c "entityID" = Some i) cands.
Proof.
  rewrite entitiesdescriptor_unfold. intros H Hc Hflat. rewrite Hc in H.
  cbn [mbind result_bind bind] in H. cbv zeta in H.
  assert (Ht : t = Elem EntitiesDescriptor
                     (container_attrs name cache_duration valid_until)
                     (first_occurrences cands)).
  { case_bool_decide; [done|].
    destruct validate; [destruct (validate_document _)|]; by inversion H. }
  subst t. unfold find_entity, iter_entities.
  rewrite iter_eq. cbn [tag children].
  rewrite bool_decide_eq_false_2 by done. cbn [app].
  assert (Hit : iter_forest EntityDescriptor (first_occurrences cands)
                = first_occurrences cands).
  { assert (Hall : Forall (λ c, iter EntityDescriptor c = [c])
                     (first_occurrences cands)).
    { rewrite Forall_forall in *. intros c Hin. apply Hflat.
      eapply elem_of_sublist; [done | apply first_occurrences_sublist]. }
    by apply iter_forest_singletons. }
  rewrite Hit. apply list_find_first_occurrences.
Qed.

End AggregationExtras.

(** ** Filter engine: further properties *)

Section FilterExtras.

Variable xsd_validate : Element → bool.
Variable xml_error : Element → option string → string.
Variable base_url : option string.

#[local] Abbreviation walk := (visit xsd_validate xml_error base_url).
#[local] Abbreviation failures := (failing xsd_validate).
#[local] Abbreviation errors := (gmap (option string) string).

Lemma failures_cons (e : Element) :
  failures e
  = (if failing_record xsd_validate e then [e] else [])
    ++ flat_map failures (children e).
Proof.
  unfold failing, failing_record, is_entity. rewrite iter_eq, filter_app.
  unfold iter_forest. rewrite filter_flat_map. f_equal.
  case_bool_decide; [|done].
  destruct (xsd_validate e) eqn:Hv; simpl.
  - by rewrite filter_cons_False by (by rewrite Hv).
  - by rewrite filter_cons_True.
Qed.

(** A subtree without failing record is walked through and left as it
    is. *)
Lemma visit_all_valid (e : Element) :
  failures e = [] → ∀ ve : errors, walk e ve = (Some e, ve, false).
Proof.
  induction e as [tg attrs cs IH] using Element_ind'. intros Hnil ve.
  rewrite failures_cons in Hnil. apply app_eq_nil in Hnil.
  destruct Hnil as [Hroot Hcs]. cbn [children] in Hcs.
  rewrite visit_eq.
  destruct (failing_record xsd_validate (Elem tg attrs cs)); [done|].
  cbn [children tag attrib].
  assert (Hf : visit_forest walk cs ve = (cs, ve, false)).
  { clear Hroot. revert ve. induction cs as [|c cs IHcs]; intros ve; [done|].
    apply Forall_cons in IH. destruct IH as [IHc IH].
    cbn [flat_map] in Hcs. apply app_eq_nil in Hcs. destruct Hcs as [Hc Hcs].
    cbn [visit_forest]. rewrite (IHc Hc ve). by rewrite (IHcs IH Hcs ve). }
  by rewrite Hf.
Qed.

(** X10: a document all of whose records pass validation comes back
    unchanged, and so does the error dictionary. *)
Theorem filter_valid_document_unchanged (t : Element) (ve : errors) :
  failing xsd_validate t = [] →
  filter_invalids_from_document xsd_validate xml_error base_url t ve
  = (Some t, ve).
Proof.
  intros Hnil. unfold filter_invalids_from_document.
  assert (Hroot : failing_record xsd_validate t = false).
  { rewrite failures_cons in Hnil. apply app_eq_nil in Hnil.
    by destruct (failing_record xsd_validate t), Hnil. }
  rewrite Hroot. by rewrite visit_all_valid.
Qed.

(** What the loop keeps, whatever the shape of the document. *)
Lemma visit_invariants (e : Element) :
  ∀ (ve : errors) r ve' ended,
    walk e ve = (r, ve', ended) →
    (r = None ↔ failing_record xsd_validate e = true)
    ∧ (∀ e', r = Some e' →
         tag e' = tag e ∧ attrib e' = attrib e
         ∧ (attrib <$> iter EntityDescriptor e')
             `sublist_of` (attrib <$> iter EntityDescriptor e))
    ∧ (∀ k, k ∉ (λ x, get x "entityID") <$> failures e → ve' !! k = ve !! k)
    ∧ (∀ k, is_Some (ve !! k) → is_Some (ve' !! k)).
Proof.
  induction e as [tg attrs cs IH] using Element_ind'.
  assert (Hforest : ∀ (ve : errors) cs' ve' ended,
    visit_forest walk cs ve = (cs', ve', ended) →
    (attrib <$> iter_forest EntityDescriptor cs')
      `sublist_of` (attrib <$> iter_forest EntityDescriptor cs)
    ∧ (∀ k, k ∉ (λ x, get x "entityID") <$> flat_map failures cs →
            ve' !! k = ve !! k)
    ∧ (∀ k, is_Some (ve !! k) → is_Some (ve' !! k))).
  { induction cs as [|c cs IHcs]; intros ve cs' ve' ended Hv.
    { injection Hv as <- <- <-. done. }
    apply Forall_cons in IH. destruct IH as [IHc IH].
    cbn [visit_forest] in Hv.
    destruct (walk c ve) as [[oc ve1] end1] eqn:Hc.
    destruct (IHc ve oc ve1 end1 Hc) as (Hnone & Hsome & Hother & Hmono).
    assert (Hhead : (attrib <$> iter_forest EntityDescriptor (option_list oc))
                      `sublist_of` (attrib <$> iter EntityDescriptor c)).
    { destruct oc as [c'|]; simpl.
      - rewrite app_nil_r. by apply Hsome.
      - apply sublist_nil_l. }
    cbn [flat_map] in *. unfold iter_forest in *.
    destruct end1.
    - injection Hv as <- <- <-.
      split; [|split; [|done]].
      + rewrite flat_map_app. cbn [flat_map]. rewrite !fmap_app.
        by apply sublist_app.
      + intros k Hk. apply Hother. rewrite fmap_app in Hk.
        intros Hin. apply Hk. apply elem_of_app. by left.
    - destruct (visit_forest walk cs ve1) as [[cs'' ve2] end2] eqn:Hcs.
      injection Hv as <- <- <-.
      destruct (IHcs IH ve1 cs'' ve2 end2 Hcs) as (Hsub & Hother2 & Hmono2).
      split; [|split].
      + rewrite flat_map_app. cbn [flat_map]. rewrite !fmap_app.
        by apply sublist_app.
      + intros k Hk. rewrite fmap_app in Hk.
        rewrite Hother2, Hother; [done| |];
          intros Hin; apply Hk; apply elem_of_app; auto.
      + intros k Hk. by apply Hmono2, Hmono. }
  intros ve r ve' ended Hv. rewrite visit_eq in Hv.
  rewrite failures_cons. cbn [children tag attrib] in *.
  destruct (failing_record xsd_validate (Elem tg attrs cs)) eqn:Hfr.
  - assert (Hins : ∀ k, k ∉ (λ x, get x "entityID")
                          <$> ([Elem tg attrs cs] ++ flat_map failures cs) →
                        k ≠ get (Elem tg attrs cs) "entityID"
                        ∧ k ∉ (λ x, get x "entityID") <$> flat_map failures cs).
    { intros k Hk. rewrite fmap_app in Hk. split.
      - intros ->. apply Hk. apply elem_of_app. left. simpl. left.
      - intros Hin. apply Hk. apply elem_of_app. by right. }
    destruct (has_entity_descendant (Elem tg attrs cs)).
    + destruct (visit_forest walk cs _) as [[cs' ve2] end2] eqn:Hcs.
      injection Hv as <- <- <-.
      destruct (Hforest _ cs' ve2 end2 Hcs) as (_ & Hother & Hmono).
      split; [done|]. split; [done|]. split.
      * intros k Hk. destruct (Hins k Hk) as [Hne Hni].
        rewrite Hother by done. by rewrite lookup_insert_ne.
      * intros k Hk. apply Hmono. rewrite lookup_insert.
        case_decide; [by eexists | done].
    + injection Hv as <- <- <-.
      split; [done|]. split; [done|]. split.
      * intros k Hk. destruct (Hins k Hk) as [Hne _].
        by rewrite lookup_insert_ne.
      * intros k Hk. rewrite lookup_insert.
        case_decide; [by eexists | done].
  - destruct (visit_forest walk cs ve) as [[cs' ve2] end2] eqn:Hcs.
    injection Hv as <- <- <-.
    destruct (Hforest ve cs' ve2 end2 Hcs) as (Hsub & Hother & Hmono).
    split; [done|]. split; [|split; [exact Hother | exact Hmono]].
    intros e' [= <-]. split; [done|]. split; [done|].
    rewrite !iter_eq. cbn [tag children]. rewrite !fmap_app.
    apply sublist_app; [|done].
    case_bool_decide; [|done]. simpl. by apply sublist_skip.
Qed.

(** X11: on any document the filter returns [None] exactly for a failing
    root record; otherwise the root keeps its tag and attributes and the
    records of the result are records of the input with their attributes,
    in their order; the error dictionary keeps every entry it had and is
    written only under identifiers of failing records. *)
Theorem filter_invariants (t : Element) (ve : errors) :
  let r := filter_invalids_from_document xsd_validate xml_error base_url t ve in
  (r.1 = None ↔ failing_record xsd_validate t = true)
  ∧ (∀ t', r.1 = Some t' →
       tag t' = tag t ∧ attrib t' = attrib t
       ∧ (attrib <$> iter_entities (Some t'))
           `sublist_of` (attrib <$> iter_entities (Some t)))
  ∧ (∀ k, k ∉ (λ x, get x "entityID") <$> failing xsd_validate t →
          r.2 !! k = ve !! k)
  ∧ (∀ k, is_Some (ve !! k) → is_Some (r.2 !! k)).
Proof.
  cbv zeta. unfold filter_invalids_from_document.
  destruct (failing_record xsd_validate t) eqn:Hfr; cbn [fst snd].
  - split; [done|]. split; [done|]. split.
    + intros k Hk. rewrite lookup_insert_ne; [done|].
      intros <-. apply Hk. rewrite failures_cons, Hfr. simpl. left.
    + intros k Hk. rewrite lookup_insert. case_decide; [by eexists | done].
  - destruct (walk t ve) as [[r ve'] ended] eqn:Hv. cbn [fst snd].
    destruct (visit_invariants t ve r ve' ended Hv) as (H1 & H2 & H3 & H4).
    rewrite Hfr in H1.
    split; [exact H1|]. split; [exact H2|]. split; [exact H3 | exact H4].
Qed.

Lemma filter_failing_of_passing (l : list Element) :
  filter (λ e, xsd_validate e = false) (filter (λ e, xsd_validate e = true) l)
  = [].
Proof.
  induction l as [|x l IH]; [done|].
  destruct (xsd_validate x) eqn:E.
  - rewrite (filter_cons_True (λ e, xsd_validate e = true)) by done.
    by rewrite filter_cons_False by (by rewrite E).
  - by rewrite (filter_cons_False (λ e, xsd_validate e = true))
      by (by rewrite E).
Qed.

(** X12: on a document without record inside a record a second pass of
    the filter changes nothing. *)
Theorem filter_idempotent (t t1 : Element) (ve ve1 : errors) :
  flat_records t = true →
  filter_invalids_from_document xsd_validate xml_error base_url t ve
  = (Some t1, ve1) →
  filter_invalids_from_document xsd_validate xml_error base_url t1 ve1
  = (Some t1, ve1).
Proof.
  intros Hflat Hf.
  assert (Hroot : failing_record xsd_validate t = false).
  { unfold filter_invalids_from_document in Hf.
    by destruct (failing_record xsd_validate t). }
  unfold filter_invalids_from_document in Hf. rewrite Hroot in Hf.
  rewrite visit_flat, Hroot in Hf by done. injection Hf as <- <-.
  apply filter_valid_document_unchanged.
  unfold failing. destruct (iter_prune_flat xsd_validate t Hflat) as [_ Hp].
  rewrite Hp by done. apply filter_failing_of_passing.
Qed.

End FilterExtras.

(** ** Parser/validator pipeline: further properties *)

Lemma strip_ids_eq (e : Element) :
  strip_ids e
  = Elem (tag e)
      (if is_entity e then delete "ID" (attrib e) else attrib e)
      (map strip_ids (children e)).
Proof. by destruct e. Qed.

Lemma tag_strip_ids (e : Element) : tag (strip_ids e) = tag e.
Proof. by rewrite strip_ids_eq. Qed.

Lemma iter_strip_ids tg (e : Element) :
  iter tg (strip_ids e) = strip_ids <$> iter tg e.
Proof.
  induction e as [tg' attrs cs IH] using Element_ind'.
  rewrite (iter_eq tg (strip_ids _)), (iter_eq tg (Elem _ _ _)).
  rewrite tag_strip_ids, fmap_app. f_equal; [by case_bool_decide|].
  rewrite strip_ids_eq. cbn [children]. unfold iter_forest.
  induction cs as [|c cs IHcs]; [done|].
  apply Forall_cons in IH. destruct IH as [IHc IH].
  cbn [map flat_map]. by rewrite fmap_app, IHc, IHcs.
Qed.

Lemma iter_tag tg (e x : Element) : x ∈ iter tg e → tag x = tg.
Proof.
  induction e as [tg' attrs cs IH] using Element_ind'.
  rewrite iter_eq. intros [Hx|Hx]%elem_of_app.
  - case_bool_decide as Ht; [|by apply elem_of_nil in Hx].
    apply list_elem_of_singleton in Hx. by subst x.
  - cbn [children] in Hx. unfold iter_forest in Hx.
    induction cs as [|c cs IHcs]; [by apply elem_of_nil in Hx|].
    apply Forall_cons in IH. destruct IH as [IHc IH].
    cbn [flat_map] in Hx. apply elem_of_app in Hx.
    destruct Hx as [Hx|Hx]; [by apply IHc | by apply IHcs].
Qed.

Lemma strip_ids_no_id (t : Element) :
  Forall (λ e, get e "ID" = None) (iter EntityDescriptor (strip_ids t)).
Proof.
  rewrite iter_strip_ids.
  apply Forall_forall. intros e He. apply list_elem_of_fmap in He.
  destruct He as (e0 & -> & He0). apply iter_tag in He0.
  rewrite strip_ids_eq. unfold get, is_entity. cbn [attrib].
  rewrite bool_decide_eq_true_2 by done. apply lookup_delete_eq.
Qed.

(** X13: stripping takes the [ID] attribute off every record and leaves
    the records, their order and every other attribute as they were;
    stripping twice is stripping once. *)
Theorem strip_ids_removes_only_id (t : Element) :
  Forall (λ e, get e "ID" = None) (iter_entities (Some (strip_ids t)))
  ∧ (∀ k, k ≠ "ID" →
       (λ e, get e k) <$> iter_entities (Some (strip_ids t))
       = (λ e, get e k) <$> iter_entities (Some t))
  ∧ strip_ids (strip_ids t) = strip_ids t.
Proof.
  unfold iter_entities. split; [apply strip_ids_no_id|].
  rewrite iter_strip_ids. split.
  - intros k Hk. rewrite <- list_fmap_compose.
    apply list_fmap_ext. intros i e He. cbn.
    rewrite strip_ids_eq. unfold get. cbn [attrib].
    destruct (is_entity e); [by rewrite lookup_delete_ne | done].
  - induction t as [tg attrs cs IH] using Element_ind'.
    rewrite (strip_ids_eq (strip_ids _)), tag_strip_ids.
    rewrite (strip_ids_eq (Elem tg attrs cs)).
    unfold is_entity. cbn [tag attrib children]. f_equal.
    + case_bool_decide; [|done]. apply delete_delete_eq.
    + rewrite map_map. induction cs as [|c cs IHcs]; [done|].
      apply Forall_cons in IH. destruct IH as [IHc IH].
      cbn [map]. by rewrite IHc, IHcs.
Qed.

Section PipelineExtras.

Variable parse_xml : string → option string → result Element.
Variable xinclude : Element → result Element.
Variable check_signature : Element → option string → result Element.
Variable validate_document : Element → bool.
Variable xsd_validate : Element → bool.
Variable xml_error : Element → option string → string.
Variable iso2datetime : string → result datetime.
Variable duration2timedelta : string → option timedelta.
Variable cfg : config.

Implicit Types (clock : Z * Z) (source : string) (key base_url : option string)
  (fail_on_error filter_invalid validate : bool) (ex : exn)
  (validation_errors : option (gmap (option string) string))
  (ve : gmap (option string) string) (t : Element).

(** The suite once parsing, inclusion, expiration and signature check
    have gone through. *)
Lemma try_suite_after_head clock source key base_url filter_invalid validate
    ve t0 t1 t2 off :
  parse_xml source base_url = Ok t0 →
  xinclude t0 = Ok t1 →
  metadata_expiration iso2datetime duration2timedelta cfg clock t1 = Ok off →
  check_signature t1 key = Ok t2 →
  try_suite parse_xml xinclude check_signature validate_document
    xsd_validate xml_error iso2datetime duration2timedelta cfg
    clock source key base_url filter_invalid validate ve
  = let t := strip_ids t2 in
    let '(validated, ve') :=
      if validate then
        if filter_invalid then
          let '(t', ve') :=
            filter_invalids_from_document xsd_validate xml_error base_url t ve in
          (Ok t', ve')
        else if validate_document t then (Ok (Some t), ve)
        else
          (Raise (MetadataException
                    ("schema validation failed: [" +:+ py_str base_url
                     +:+ "] '" +:+ source +:+ "': " +:+ xml_error t base_url)),
           ve)
      else (Ok (Some t), ve) in
    (t ← validated;
     t ← match t with
         | Some t' =>
             if bool_decide (tag t' = EntityDescriptor)
             then wrap_single validate_document base_url t' else Ok t
         | None => Ok None
         end;
     Ok (t, off),
     ve').
Proof.
  intros H0 H1 H2 H3. unfold try_suite. rewrite H0. cbn.
  rewrite H1. cbn. rewrite H2. cbn. rewrite H3. done.
Qed.

(** Wrapping a single record: the container holds the record, or nothing
    when the record has no identifier. *)
Lemma wrap_single_children base_url t w :
  wrap_single validate_document base_url t = Ok (Some w) →
  tag w = EntitiesDescriptor
  ∧ children w = match get t "entityID" with Some _ => [t] | None => [] end.
Proof.
  unfold wrap_single. destruct base_url as [name|]; [|done].
  rewrite entitiesdescriptor_unfold. cbn.
  destruct (get t "entityID") eqn:E.
  - destruct (validate_document _); [|done]. by intros [= <-].
  - destruct (validate_document _); [|done]. by intros [= <-].
Qed.

(** X14: no record of a document that [parse_saml_metadata] returns has
    an [ID] attribute. *)
Theorem parse_saml_metadata_strips_ids clock source key base_url
    fail_on_error filter_invalid validate validation_errors t off :
  (parse_saml_metadata parse_xml xinclude check_signature validate_document
     xsd_validate xml_error iso2datetime duration2timedelta cfg
     clock source key base_url fail_on_error filter_invalid validate
     validation_errors).1 = Ok (Some t, off) →
  Forall (λ e, get e "ID" = None) (iter_entities (Some t)).
Proof.
  unfold parse_saml_metadata.
  destruct (try_suite _ _ _ _ _ _ _ _ _ _ _ _ _ _ _ _) as [r ve'] eqn:Hs.
  assert (Hr : r = Ok (Some t, off) → 
           Forall (λ e, get e "ID" = None) (iter_entities (Some t))).
  { clear fail_on_error. intros ->. unfold try_suite in Hs.
    destruct (parse_xml source base_url) as [t0|]; cbn in Hs; [|done].
    destruct (xinclude t0) as [t1|]; cbn in Hs; [|done].
    destruct (metadata_expiration _ _ _ _ t1) as [off'|]; cbn in Hs; [|done].
    destruct (check_signature t1 key) as [t2|]; cbn in Hs; [|done].
    unfold root in Hs.
    pose proof (strip_ids_no_id t2) as Hstrip.
    set (s := strip_ids t2) in *.
    assert (Hnoid : ∀ x, 
      (attrib <$> iter EntityDescriptor x)
        `sublist_of` (attrib <$> iter EntityDescriptor s) →
      Forall (λ e, get e "ID" = None) (iter EntityDescriptor x)).
    { intros x Hsub. apply Forall_forall. intros e He.
      assert (Hin : attrib e ∈ attrib <$> iter EntityDescriptor s).
      { eapply elem_of_sublist; [|exact Hsub]. apply list_elem_of_fmap. eauto. }
      apply list_elem_of_fmap in Hin. destruct Hin as (e0 & Hat & He0).
      rewrite Forall_forall in Hstrip. unfold get. rewrite Hat.
      by apply Hstrip. }
    assert (Hfinal : ∀ tv, 
      (attrib <$> iter EntityDescriptor tv)
        `sublist_of` (attrib <$> iter EntityDescriptor s) →
      (tv' ← (if bool_decide (tag tv = EntityDescriptor)
              then wrap_single validate_document base_url tv
              else Ok (Some tv));
       Ok (tv', off')) = Ok (Some t, off) →
      Forall (λ e, get e "ID" = None) (iter_entities (Some t))).
    { intros tv Hsub Hw. unfold iter_entities. case_bool_decide as Htag.
      - destruct (wrap_single validate_document base_url tv) as [[w|]|] eqn:Ew;
          cbn in Hw; [|done..]. injection Hw as <- <-.
        apply wrap_single_children in Ew. destruct Ew as [Hwt Hwc].
        rewrite iter_eq, Hwt, Hwc.
        rewrite bool_decide_eq_false_2 by done. cbn [app].
        destruct (get tv "entityID"); [|by constructor].
        unfold iter_forest. cbn [flat_map]. rewrite app_nil_r.
        by apply Hnoid.
      - cbn in Hw. injection Hw as <- <-. by apply Hnoid. }
    destruct validate.
    - destruct filter_invalid.
      + pose proof (filter_invariants xsd_validate xml_error base_url s
                      (default ∅ validation_errors)) as Hinv.
        cbv zeta in Hinv.
        destruct (filter_invalids_from_document _ _ _ s _) as [ot ve1].
        cbn [fst snd] in Hinv. destruct Hinv as (_ & Hsome & _).
        injection Hs as Hs _. destruct ot as [tv|]; cbn in Hs; [|done].
        destruct (Hsome tv eq_refl) as (_ & _ & Hsub).
        by apply (Hfinal tv).
      + destruct (validate_document s); injection Hs as Hs _; [|done].
        cbn in Hs. by apply (Hfinal s).
    - injection Hs as Hs _. cbn in Hs. by apply (Hfinal s). }
  destruct r as [[t' off']|ex]; cbn.
  - intros [= -> ->]. by apply Hr.
  - by destruct fail_on_error.
Qed.

(** X15: for a document whose root is not a record, read with validation
    and filtering on, records that fail the schema never make the call
    fail: once parsing, inclusion, expiration and signature check have
    gone through, the filtered document is returned, whatever
    [fail_on_error] says. *)
Theorem parse_saml_metadata_filter_never_fatal clock source key base_url
    fail_on_error validation_errors t0 t1 t2 off :
  parse_xml source base_url = Ok t0 →
  xinclude t0 = Ok t1 →
  metadata_expiration iso2datetime duration2timedelta cfg clock t1 = Ok off →
  check_signature t1 key = Ok t2 →
  tag t2 ≠ EntityDescriptor →
  ∃ t',
    filter_invalids_from_document xsd_validate xml_error base_url
      (strip_ids t2) (default ∅ validation_errors)
    = (Some t', (parse_saml_metadata parse_xml xinclude check_signature
                   validate_document xsd_validate xml_error iso2datetime
                   duration2timedelta cfg clock source key base_url
                   fail_on_error true true validation_errors).2)
    ∧ (parse_saml_metadata parse_xml xinclude check_signature
         validate_document xsd_validate xml_error iso2datetime
         duration2timedelta cfg clock source key base_url
         fail_on_error true true validation_errors).1
      = Ok (Some t', off).
Proof.
  intros H0 H1 H2 H3 Htag. unfold parse_saml_metadata.
  rewrite (try_suite_after_head _ _ _ _ _ _ _ _ _ _ _ H0 H1 H2 H3).
  cbv zeta.
  pose proof (filter_invariants xsd_validate xml_error base_url (strip_ids t2)
                (default ∅ validation_errors)) as Hinv.
  cbv zeta in Hinv.
  destruct (filter_invalids_from_document _ _ _ (strip_ids t2) _)
    as [ot ve1] eqn:Hf.
  cbn [fst snd] in Hinv. destruct Hinv as (Hnone & Hsome & _).
  destruct ot as [t'|].
  - destruct (Hsome t' eq_refl) as (Ht' & _).
    rewrite tag_strip_ids in Ht'. cbn.
    rewrite bool_decide_eq_false_2 by congruence. cbn. by exists t'.
  - exfalso. destruct Hnone as [Hn _]. specialize (Hn eq_refl).
    unfold failing_record, is_entity in Hn. rewrite tag_strip_ids in Hn.
    by rewrite bool_decide_eq_false_2 in Hn.
Qed.

(** X16: a document that is a single record is handed to
    [entitiesdescriptor] with its default [validate=True]: with the
    [validate] flag off the wrapping container is still checked against
    the schema, and the suite ends with a [MetadataException] when it
    fails; when it passes the result is a container named after
    [base_url] whose only member is the record. *)
Theorem parse_saml_metadata_single_record clock source key name
    filter_invalid ve t0 t1 t2 off i :
  parse_xml source (Some name) = Ok t0 →
  xinclude t0 = Ok t1 →
  metadata_expiration iso2datetime duration2timedelta cfg clock t1 = Ok off →
  check_signature t1 key = Ok t2 →
  tag t2 = EntityDescriptor →
  get t2 "entityID" = Some i →
  let wrapper := Elem EntitiesDescriptor {[ "Name" := name ]} [strip_ids t2] in
  (try_suite parse_xml xinclude check_signature validate_document
     xsd_validate xml_error iso2datetime duration2timedelta cfg
     clock source key (Some name) filter_invalid false ve).1
  = if validate_document wrapper then Ok (Some wrapper, off)
    else Raise (MetadataException ("XML schema validation failed: " +:+ name)).
Proof.
  intros H0 H1 H2 H3 Htag Hid wrapper.
  assert (Hid' : get (strip_ids t2) "entityID" = Some i).
  { rewrite strip_ids_eq. unfold get in *. cbn [attrib].
    destruct (is_entity t2); [by rewrite lookup_delete_ne | done]. }
  rewrite (try_suite_after_head _ _ _ _ _ _ _ _ _ _ _ H0 H1 H2 H3).
  cbv zeta. cbn [fst mbind result_bind bind].
  rewrite tag_strip_ids, bool_decide_eq_true_2 by done.
  unfold wrap_single. rewrite entitiesdescriptor_unfold.
  cbn [candidates mbind result_bind bind first_occurrences length].
  rewrite Hid'. cbn [filter list_filter].
  rewrite bool_decide_eq_false_2 by done.
  change (Elem EntitiesDescriptor (container_attrs name None None)
            [strip_ids t2]) with wrapper.
  by destruct (validate_document wrapper).
Qed.

(** X17: only the per-record filter writes to the error dictionary: with
    validation off, or with whole-document validation, the call hands the
    dictionary back as it got it. *)
Theorem parse_saml_metadata_errors_untouched clock source key base_url
    fail_on_error filter_invalid validate validation_errors :
  validate = false ∨ filter_invalid = false →
  (parse_saml_metadata parse_xml xinclude check_signature validate_document
     xsd_validate xml_error iso2datetime duration2timedelta cfg
     clock source key base_url fail_on_error filter_invalid validate
     validation_errors).2
  = default ∅ validation_errors.
Proof.
  intros Hflags. unfold parse_saml_metadata.
  destruct (try_suite _ _ _ _ _ _ _ _ _ _ _ _ _ _ _ _) as [r ve'] eqn:Hs.
  assert (Hve : ve' = default ∅ validation_errors).
  { unfold try_suite in Hs.
    destruct (_ ← parse_xml source base_url; _) as [[t off]|ex];
      [|by injection Hs as _ <-].
    destruct validate.
    - destruct Hflags as [?| ->]; [done|].
      destruct (validate_document t); by injection Hs as _ <-.
    - by injection Hs as _ <-. }
  subst ve'. destruct r as [[t off]|ex]; [done|]. by destruct fail_on_error.
Qed.

(** X18: a [validUntil] that [iso2datetime] cannot read makes the whole
    call fail with the parser's exception, or yield [(None, None)] when
    errors are swallowed, whatever the signature and the records are. *)
Theorem parse_saml_metadata_bad_valid_until clock source key base_url
    fail_on_error filter_invalid validate validation_errors
    t0 t1 valid_until ex :
  parse_xml source base_url = Ok t0 →
  xinclude t0 = Ok t1 →
  is_metadata_root t1 = true →
  get t1 "validUntil" = Some valid_until →
  iso2datetime valid_until = Raise ex →
  (parse_saml_metadata parse_xml xinclude check_signature validate_document
     xsd_validate xml_error iso2datetime duration2timedelta cfg
     clock source key base_url fail_on_error filter_invalid validate
     validation_errors).1
  = if fail_on_error then Raise ex else Ok (None, None).
Proof.
  intros H0 H1 Hroot Hvu Hiso. unfold parse_saml_metadata, try_suite.
  rewrite H0. cbn. rewrite H1. cbn.
  unfold metadata_expiration, root. rewrite Hroot, Hvu.
  unfold until. rewrite Hiso. cbn. by destruct fail_on_error.
Qed.

End PipelineExtras.
